(** * sync.js: branch snapshots, their diff and the run around it

    A shallow embedding of [sync.js] (and of the earlier variant of the
    script that exports every branch) together with the properties of its
    change report.

    Strings.  A JavaScript string is represented by its UTF-8 encoding, a
    [string] of bytes; this is what [execSync] and [readFileSync] decode
    with the "utf8" option and what the string literals of the script denote.
    The separators the script splits on (line feed, tab) are ASCII, so
    splitting bytes is splitting code units.  Where the script counts code
    units ([substring]) the bytes are read code point by code point; half
    of a surrogate pair, which only such a cut can leave, is written in the
    three-byte form of its code unit. *)

From Stdlib Require Import List String Ascii ZArith NArith Bool Lia.
From Stdlib Require Import Permutation Sorted DecimalString.
Import ListNotations.

Local Open Scope string_scope.
Local Open Scope list_scope.

(** String concatenation, kept apart from the append of lists. *)
Infix "+++" := String.append (right associativity, at level 60).

(** ** Strings *)

Module JsString.

Definition bytes (l : list nat) : string :=
  string_of_list_ascii (map ascii_of_nat l).

(** [s.split(sep)] for a one-character separator: never an empty array. *)
Fixpoint split (sep : ascii) (s : string) : list string :=
  match s with
  | EmptyString => [EmptyString]
  | String c s' =>
      if Ascii.eqb c sep then EmptyString :: split sep s'
      else match split sep s' with
           | w :: ws => String c w :: ws
           | [] => [String c EmptyString]
           end
  end.

(** [strip p s] is [Some r] when [s] is [p] followed by [r]. *)
Fixpoint strip (p s : string) : option string :=
  match p, s with
  | EmptyString, _ => Some s
  | String a p', String b s' => if Ascii.eqb a b then strip p' s' else None
  | String _ _, EmptyString => None
  end.

(** [s.replace(pat, rep)] for a string pattern: the first occurrence only.
    The script's replacement text is empty, so it holds no [$] pattern. *)
Fixpoint replace (pat rep s : string) : string :=
  match strip pat s with
  | Some rest => rep +++ rest
  | None =>
      match s with
      | EmptyString => EmptyString
      | String c s' => String c (replace pat rep s')
      end
  end.

(** The code points ECMAScript's [trim] removes (WhiteSpace and
    LineTerminator), each by its UTF-8 encoding: U+0009..U+000D, U+0020,
    U+00A0, U+1680, U+2000..U+200A, U+2028, U+2029, U+202F, U+205F,
    U+3000, U+FEFF. *)
Definition WhiteSpace : list string :=
  map bytes
    [ [9]; [10]; [11]; [12]; [13]; [32]; [194; 160]; [225; 154; 128];
      [226; 128; 128]; [226; 128; 129]; [226; 128; 130]; [226; 128; 131];
      [226; 128; 132]; [226; 128; 133]; [226; 128; 134]; [226; 128; 135];
      [226; 128; 136]; [226; 128; 137]; [226; 128; 138];
      [226; 128; 168]; [226; 128; 169]; [226; 128; 175];
      [226; 129; 159]; [227; 128; 128]; [239; 187; 191] ].

Fixpoint rev_acc (acc s : string) : string :=
  match s with
  | EmptyString => acc
  | String c s' => rev_acc (String c acc) s'
  end.

Definition rev (s : string) : string := rev_acc EmptyString s.

(** One white-space code point removed from the front, if there is one. *)
Fixpoint strip_any (ps : list string) (s : string) : option string :=
  match ps with
  | [] => None
  | p :: ps' =>
      match strip p s with
      | Some r => Some r
      | None => strip_any ps' s
      end
  end.

Fixpoint strip_all (fuel : nat) (ps : list string) (s : string) : string :=
  match fuel with
  | O => s
  | S n =>
      match strip_any ps s with
      | Some r => strip_all n ps r
      | None => s
      end
  end.

(** Every removal shortens the string, so its length is fuel enough. *)
Definition trimStart (s : string) : string :=
  strip_all (String.length s) WhiteSpace s.

(** In well-formed UTF-8 a lead byte never occurs inside another code
    point, so matching the reversed encodings on the reversed bytes
    removes exactly the trailing white space. *)
Definition trimEnd (s : string) : string :=
  rev (strip_all (String.length s) (map rev WhiteSpace) (rev s)).

Definition trim (s : string) : string := trimEnd (trimStart s).

(** ToBoolean on a string: only the empty string is falsy. *)
Definition truthy (s : string) : bool :=
  match s with EmptyString => false | String _ _ => true end.

(** The bytes of the code point a lead byte opens.  A code point of four
    bytes lies beyond U+FFFF and takes two UTF-16 code units, every other
    one. *)
Definition lead_length (c : ascii) : nat :=
  let n := nat_of_ascii c in
  if (n <? 192)%nat then 1
  else if (n <? 224)%nat then 2
  else if (n <? 240)%nat then 3
  else 4.

(** The first [k] bytes and the rest. *)
Fixpoint cut (k : nat) (s : string) : string * string :=
  match k, s with
  | S k', String c s' => let (front, rest) := cut k' s' in (String c front, rest)
  | _, _ => (EmptyString, s)
  end.

(** The first code unit of a code point beyond U+FFFF, given by its four
    bytes: the high surrogate. *)
Definition high_surrogate (point : string) : string :=
  match map N_of_ascii (list_ascii_of_string point) with
  | [b0; b1; b2; b3] =>
      let cp := ((b0 mod 8) * 262144 + (b1 mod 64) * 4096
                 + (b2 mod 64) * 64 + b3 mod 64)%N in
      let unit := (55296 + (cp - 65536) / 1024)%N in
      bytes [237; N.to_nat (128 + (unit / 64) mod 64); N.to_nat (128 + unit mod 64)]
  | _ => point
  end.

(** [s.substring(0, n)]: the first [n] UTF-16 code units. *)
Fixpoint substring0 (n : nat) (s : string) : string :=
  match n with
  | O => EmptyString
  | S m =>
      match s with
      | EmptyString => EmptyString
      | String c _ =>
          let (point, rest) := cut (lead_length c) s in
          if Nat.eqb (lead_length c) 4
          then match m with
               | O => high_surrogate point
               | S m' => point +++ substring0 m' rest
               end
          else point +++ substring0 m rest
      end
  end.

Definition tab : ascii := ascii_of_nat 9.
Definition lf : ascii := ascii_of_nat 10.

End JsString.

(** ** Values, errors and plain objects *)

(** A thrown [Error]: only its [message] is ever read by the script. *)
Record error : Type := { name : string; message : string }.

(** V8's wording for a method call on a missing or unsuitable receiver. *)
Definition TypeError_undefined (prop : string) : error :=
  {| name := "TypeError";
     message := "Cannot read properties of undefined (reading '" +++ prop +++ "')" |}.

Definition TypeError_not_a_function (what : string) : error :=
  {| name := "TypeError"; message := what +++ " is not a function" |}.

(** How a piece of code ends: with a value, with a thrown error, or with
    [process.exit], which no [catch] intercepts. *)
Inductive completion (A : Type) : Type :=
| Normal (a : A)
| Throw (e : error)
| Exit (code : Z).

Arguments Normal {A} a.
Arguments Throw {A} e.
Arguments Exit {A} code.

(** The values a snapshot lookup or a change record field can hold. *)
Inductive value : Type :=
| Undefined
| Null
| Str (s : string)
| Inherited (key : string).   (* a member of Object.prototype *)

Definition ToBoolean (v : value) : bool :=
  match v with
  | Undefined | Null => false
  | Str s => JsString.truthy s
  | Inherited _ => true
  end.

(** [v === s] for a string [s]. *)
Definition strict_eq_string (v : value) (s : string) : bool :=
  match v with
  | Str t => String.eqb t s
  | _ => false
  end.

Module JsObject.

(** The own enumerable properties of an object literal that only ever
    receives string values, in the order [Object.keys] lists them:
    array indices ascending, then the other keys by creation. *)
Definition t : Type := list (string * string).

Definition empty : t := [].

Definition keys (o : t) : list string := map fst o.
Definition entries (o : t) : list (string * string) := o.

Fixpoint own (o : t) (k : string) : option string :=
  match o with
  | [] => None
  | (k', v) :: o' => if String.eqb k' k then Some v else own o' k
  end.

(** What every object created by [{}] inherits. *)
Definition prototype_keys : list string :=
  [ "constructor"; "__defineGetter__"; "__defineSetter__"; "hasOwnProperty";
    "__lookupGetter__"; "__lookupSetter__"; "isPrototypeOf";
    "propertyIsEnumerable"; "toString"; "valueOf"; "__proto__";
    "toLocaleString" ].

(** [o[k]]: the own property, else the inherited member, else undefined. *)
Definition get (o : t) (k : string) : value :=
  match own o k with
  | Some v => Str v
  | None =>
      if existsb (String.eqb k) prototype_keys then Inherited k else Undefined
  end.

Definition digit (c : ascii) : option N :=
  let n := N_of_ascii c in
  if ((48 <=? n) && (n <=? 57))%N then Some (n - 48)%N else None.

Fixpoint decimal (acc : N) (s : string) : option N :=
  match s with
  | EmptyString => Some acc
  | String c s' =>
      match digit c with
      | Some d => decimal (10 * acc + d)%N s'
      | None => None
      end
  end.

(** A canonical numeric key below 2^32 - 1 is an array index. *)
Definition array_index (k : string) : option N :=
  match k with
  | EmptyString => None
  | String c rest =>
      if Ascii.eqb c "0" && JsString.truthy rest then None
      else match decimal 0 k with
           | Some n => if (n <=? 4294967294)%N then Some n else None
           | None => None
           end
  end.

Fixpoint update (k v : string) (o : t) : t :=
  match o with
  | [] => []
  | (k', v') :: o' =>
      if String.eqb k' k then (k', v) :: o' else (k', v') :: update k v o'
  end.

Fixpoint insert_index (n : N) (k v : string) (o : t) : t :=
  match o with
  | [] => [(k, v)]
  | (k', v') :: o' =>
      match array_index k' with
      | Some m => if (n <? m)%N then (k, v) :: o
                  else (k', v') :: insert_index n k v o'
      | None => (k, v) :: o
      end
  end.

(** [o[k] = v] for a string [v].  An own property is overwritten in
    place.  Otherwise the key [__proto__] reaches the setter inherited
    from Object.prototype, which ignores a value that is neither an object
    nor null: no property is created.  Any other key is created. *)
Definition set (o : t) (k v : string) : t :=
  match own o k with
  | Some _ => update k v o
  | None =>
      if String.eqb k "__proto__" then o
      else match array_index k with
           | Some n => insert_index n k v o
           | None => o ++ [(k, v)]
           end
  end.

End JsObject.

(** ** parseCommitsData *)

(** The body of the [forEach] callback: [[hash, ref] = line.split('\t')]
    leaves [ref] undefined when the line has no tab, and [ref.replace]
    then throws. *)
Definition parseLine (commits : JsObject.t) (line : string) : completion JsObject.t :=
  match JsString.split JsString.tab line with
  | hash :: ref :: _ =>
      let branch := JsString.replace "refs/heads/" "" ref in
      Normal (JsObject.set commits branch hash)
  | _ => Throw (TypeError_undefined "replace")
  end.

Fixpoint forEach_lines (lines : list string) (commits : JsObject.t)
  : completion JsObject.t :=
  match lines with
  | [] => Normal commits
  | line :: rest =>
      match parseLine commits line with
      | Normal commits' => forEach_lines rest commits'
      | Throw e => Throw e
      | Exit c => Exit c
      end
  end.

Definition nonblank (line : string) : bool := JsString.truthy (JsString.trim line).

Definition parseCommitsData (commitsText : string) : completion JsObject.t :=
  let lines := filter nonblank (JsString.split JsString.lf commitsText) in
  forEach_lines lines JsObject.empty.

(** ** The process and its surroundings *)

(** [process.env]: a variable is unset or holds a string. *)
Record config : Type := {
  TELEGRAM_BOT_TOKEN : option string;
  TELEGRAM_CHAT_ID : option string;
  GH_TOKEN : option string
}.

Definition set_and_nonempty (v : option string) : bool :=
  match v with
  | Some s => JsString.truthy s
  | None => false
  end.

Definition env_text (v : option string) : string :=
  match v with
  | Some s => s
  | None => "undefined"
  end.

Inductive exec_outcome : Type :=
| Stdout (output : string)
| ExecFailed (e : error).

(** A [Date]: its time value (milliseconds since the epoch), or none, the
    Invalid Date that [new Date(v)] is for an [undefined] or unreadable
    [v]. *)
Inductive Date : Type :=
| TimeValue (t : Z)
| InvalidDate.

Coercion TimeValue : Z >-> Date.
Bind Scope Z_scope with Date.

(** The JSON body of a GitHub answer, as far as the script reads it.
    [Unparsable]: [response.json()] rejects.  [NoDateField]: reading the
    path to the date throws, as [commitData.commit.committer.date] does
    when the body has no [commit] or no [committer], and [repoData.pushed_at]
    when the body is [null].  [DateField d]: the path reads, and [d] is
    the [new Date(...)] of what is found there: an Invalid Date when the
    property is absent or is not the text of a date. *)
Inductive date_body : Type :=
| Unparsable (e : error)
| NoDateField (e : error)
| DateField (d : Date).

Inductive fetch_outcome (B : Type) : Type :=
| Rejected (e : error)
| Response (status : Z) (body : B).

Arguments Rejected {B} e.
Arguments Response {B} status body.

(** What the script does to the outside, in the order it does it, each
    request with the answer it got.  Console output is left out: nothing
    reads it. *)
Inductive event : Type :=
| ExecSync (command : string) (outcome : exec_outcome)
| Fetch (url : string) (headers : list (string * string))
        (outcome : fetch_outcome date_body)
| SendMessage (url chat_id text parse_mode : string) (outcome : fetch_outcome unit)
| WriteFileSync (path data : string)
| MkdirSync (path : string).

(** [disk] holds the regular files the script reads and writes; the
    external commands it runs ([git], [rm], [tar]) work on directories,
    whose presence the surroundings answer for.  [trace] lists the events
    so far, oldest first: the requests with their answers, and the writes
    that went through. *)
Record world : Type := {
  disk : list (string * string);
  trace : list event
}.

(** The process starts with nothing done yet. *)
Definition start (files : list (string * string)) : world :=
  {| disk := files; trace := [] |}.

Definition ok (status : Z) : bool := ((200 <=? status) && (status <=? 299))%Z.

(** The answers of the outside world.  Each may depend on the request and
    on how many events the run has performed before it. *)
Record environment : Type := {
  execSync_outcome : nat -> string -> exec_outcome;
  directory_exists : nat -> string -> bool;
  github_api : nat -> string -> fetch_outcome date_body;
  telegram_api : nat -> string -> fetch_outcome unit;
  Date_now : nat -> Z
}.

(** Computations of the script: a state over [world] with completions. *)
Definition M (A : Type) : Type := world -> completion A * world.

Definition ret {A} (a : A) : M A := fun w => (Normal a, w).

Definition bind {A B} (m : M A) (k : A -> M B) : M B :=
  fun w =>
    match m w with
    | (Normal a, w') => k a w'
    | (Throw e, w') => (Throw e, w')
    | (Exit c, w') => (Exit c, w')
    end.

Definition throw {A} (e : error) : M A := fun w => (Throw e, w).

Definition process_exit {A} (code : Z) : M A := fun w => (Exit code, w).

Definition try_catch {A} (body : M A) (handler : error -> M A) : M A :=
  fun w =>
    match body w with
    | (Throw e, w') => handler e w'
    | r => r
    end.

Definition lift {A} (c : completion A) : M A := fun w => (c, w).

Definition emit (e : event) : M unit :=
  fun w => (Normal tt, {| disk := disk w; trace := trace w ++ [e] |}).

Definition clock : M nat := fun w => (Normal (List.length (trace w)), w).

Declare Scope js_scope.
Delimit Scope js_scope with js.
Notation "x <- m ;; k" := (bind m (fun x => k))
  (at level 61, m at next level, right associativity) : js_scope.
Notation "m ;;; k" := (bind m (fun _ => k))
  (at level 61, right associativity) : js_scope.
Local Open Scope js_scope.

Definition decimal_of_Z (z : Z) : string :=
  DecimalString.NilZero.string_of_int (Z.to_int z).

(** ** Change records *)

Record ChangeRecord : Type := {
  branch : string;
  oldHash : value;
  newHash : value;
  commitTime : Date;
  url : string;
  isNew : option bool        (* None: the property is absent *)
}.

(** How the report reads the flag: [if (isNew)]. *)
Definition is_new (r : ChangeRecord) : bool :=
  match isNew r with
  | Some b => b
  | None => false
  end.

(** [`${v}`] for the values of a snapshot lookup. *)
Definition ToString (v : value) : string :=
  match v with
  | Undefined => "undefined"
  | Null => "null"
  | Str s => s
  | Inherited k =>
      if String.eqb k "__proto__" then "[object Object]"
      else if String.eqb k "constructor" then "function Object() { [native code] }"
      else "function " +++ k +++ "() { [native code] }"
  end.

(** [Array.prototype.sort] with a comparator that is a consistent order
    is the stable sort by it; insertion from the right is one.  With a
    comparator that is not, the order is the engine's affair; the insertion
    then leaves in place what the comparator calls equal, as V8 leaves the
    arrays of the scenarios with an Invalid Date. *)
Fixpoint sort_insert {A} (cmp : A -> A -> Z) (x : A) (l : list A) : list A :=
  match l with
  | [] => [x]
  | y :: l' => if (cmp x y <=? 0)%Z then x :: l else y :: sort_insert cmp x l'
  end.

Definition Array_sort {A} (cmp : A -> A -> Z) (l : list A) : list A :=
  fold_right (sort_insert cmp) [] l.

(** [a.commitTime - b.commitTime]: the difference of the time values,
    whose sign is that of the difference of the integers, and NaN when
    either Date is invalid, which the sort reads as [+0]. *)
Definition byCommitTime (a b : ChangeRecord) : Z :=
  match commitTime a, commitTime b with
  | TimeValue x, TimeValue y => (x - y)%Z
  | _, _ => 0%Z
  end.

Definition tree_url (branch : string) : string :=
  "https://github.com/cmliu/edgetunnel/tree/" +++ branch.

Section Script.

Variable cfg : config.
Variable env : environment.

Definition api_headers : list (string * string) :=
  ("Accept", "application/vnd.github.v3+json")
  :: (if set_and_nonempty (GH_TOKEN cfg)
      then [("Authorization", "token " +++ env_text (GH_TOKEN cfg))]
      else []).

(** [fetch(apiUrl, { headers })] followed by the reading of the date:
    everything inside the [try] of the two GitHub lookups. *)
Definition fetch_date (apiUrl : string) : M Date :=
  now <- clock ;;
  let answer := github_api env now apiUrl in
  emit (Fetch apiUrl api_headers answer) ;;;
  match answer with
  | Rejected e => throw e
  | Response status body =>
      if negb (ok status)
      then throw {| name := "Error";
                    message := "GitHub API 错误: " +++ decimal_of_Z status |}
      else match body with
           | Unparsable e => throw e
           | NoDateField e => throw e
           | DateField d => ret d
           end
  end.

(** getBranchCommitTime: what is thrown inside is caught and answered by
    [new Date(0)]; an Invalid Date is not thrown and is returned. *)
Definition getBranchCommitTime (branch commitHash : string) : M Date :=
  try_catch
    (fetch_date ("https://api.github.com/repos/cmliu/edgetunnel/commits/" +++ commitHash))
    (fun error => ret (TimeValue 0)).

(** getRepoLastUpdateTime: what is thrown inside is answered by the
    current time. *)
Definition getRepoLastUpdateTime : M Date :=
  try_catch
    (fetch_date "https://api.github.com/repos/cmliu/edgetunnel")
    (fun error => now <- clock ;; ret (TimeValue (Date_now env now))).

(** The first loop of getChangedBranches, over [Object.entries(newCommits)]. *)
Fixpoint changed_entries (oldCommits : JsObject.t)
    (entries : list (string * string)) (changedBranches : list ChangeRecord)
  : M (list ChangeRecord) :=
  match entries with
  | [] => ret changedBranches
  | (branch, newHash) :: rest =>
      let oldHash := JsObject.get oldCommits branch in
      if negb (strict_eq_string oldHash newHash)
      then
        commitTime <- getBranchCommitTime branch newHash ;;
        changed_entries oldCommits rest
          (changedBranches ++
             [ {| branch := branch; oldHash := oldHash; newHash := Str newHash;
                  commitTime := commitTime; url := tree_url branch;
                  isNew := None |} ])
      else changed_entries oldCommits rest changedBranches
  end.

(** The second loop, over [Object.keys(newCommits)]. *)
Fixpoint new_keys (oldCommits newCommits : JsObject.t)
    (keys : list string) (changedBranches : list ChangeRecord)
  : M (list ChangeRecord) :=
  match keys with
  | [] => ret changedBranches
  | branch :: rest =>
      if negb (ToBoolean (JsObject.get oldCommits branch))
      then
        commitTime <- getBranchCommitTime branch
                        (ToString (JsObject.get newCommits branch)) ;;
        new_keys oldCommits newCommits rest
          (changedBranches ++
             [ {| branch := branch; oldHash := Null;
                  newHash := JsObject.get newCommits branch;
                  commitTime := commitTime; url := tree_url branch;
                  isNew := Some true |} ])
      else new_keys oldCommits newCommits rest changedBranches
  end.

Definition getChangedBranches (oldCommits newCommits : JsObject.t)
  : M (list ChangeRecord) :=
  changedBranches <- changed_entries oldCommits (JsObject.entries newCommits) [] ;;
  changedBranches <- new_keys oldCommits newCommits (JsObject.keys newCommits)
                       changedBranches ;;
  ret (Array_sort byCommitTime changedBranches).

(** *** The files and commands around the diff *)

Definition SRC_REPO : string := "https://github.com/cmliu/edgetunnel.git".
Definition LOCAL_REPO : string := "edgetunnel".
Definition LAST_COMMIT_FILE : string := "last_commit.txt".

Definition getAuthenticatedRepoUrl : string :=
  if set_and_nonempty (GH_TOKEN cfg)
  then "https://x-access-token:" +++ env_text (GH_TOKEN cfg)
       +++ "@github.com/cmliu/edgetunnel.git"
  else SRC_REPO.

(** [execSync(command)]: the answer is the surroundings'.  The commands
    of the script remove and make directories (the mirror, the export of
    the branches); what they do inside these is not followed: [disk] holds
    the files the script itself reads and writes, and a file that stands
    where one of these directories goes, or below it, is outside the
    model. *)
Definition execSync (command : string) : M string :=
  now <- clock ;;
  let answer := execSync_outcome env now command in
  emit (ExecSync command answer) ;;;
  match answer with
  | Stdout output => ret output
  | ExecFailed e => throw e
  end.

(** A path exists when it is a file on [disk] or a directory the
    surroundings report. *)
Definition existsSync (path : string) : M bool :=
  fun w =>
    match JsObject.own (disk w) path with
    | Some _ => (Normal true, w)
    | None => (Normal (directory_exists env (List.length (trace w)) path), w)
    end.

Definition readFileSync (path : string) : M string :=
  fun w =>
    match JsObject.own (disk w) path with
    | Some data => (Normal data, w)
    | None =>
        (Throw {| name := "Error";
                  message := "EISDIR: illegal operation on a directory, read" |}, w)
    end.

Fixpoint write (path data : string) (d : list (string * string))
  : list (string * string) :=
  match d with
  | [] => [(path, data)]
  | (p, old) :: d' =>
      if String.eqb p path then (p, data) :: d' else (p, old) :: write path data d'
  end.

(** A directory stands where the file is to be: the write is refused and
    nothing is written.  Otherwise the working directory is writable. *)
Definition writeFileSync (path data : string) : M unit :=
  fun w =>
    match JsObject.own (disk w) path with
    | None =>
        if directory_exists env (List.length (trace w)) path
        then (Throw {| name := "Error";
                       message := "EISDIR: illegal operation on a directory, open '"
                                  +++ path +++ "'" |}, w)
        else (Normal tt,
              {| disk := write path data (disk w);
                 trace := trace w ++ [WriteFileSync path data] |})
    | Some _ =>
        (Normal tt,
         {| disk := write path data (disk w);
            trace := trace w ++ [WriteFileSync path data] |})
    end.

Definition sendTelegramMessage (text : string) : M unit :=
  if negb (set_and_nonempty (TELEGRAM_BOT_TOKEN cfg))
     || negb (set_and_nonempty (TELEGRAM_CHAT_ID cfg))
  then ret tt
  else
    let url := "https://api.telegram.org/bot" +++ env_text (TELEGRAM_BOT_TOKEN cfg)
               +++ "/sendMessage" in
    try_catch
      (now <- clock ;;
       let answer := telegram_api env now url in
       emit (SendMessage url (env_text (TELEGRAM_CHAT_ID cfg)) text "HTML" answer) ;;;
       match answer with
       | Rejected e => throw e
       | Response status _ =>
           if negb (ok status)
           then throw {| name := "Error";
                         message := "HTTP error! status: " +++ decimal_of_Z status |}
           else ret tt
       end)
      (fun error => ret tt).

Definition getLatestCommits : M string :=
  let repoUrl := getAuthenticatedRepoUrl in
  try_catch
    (output <- execSync ("git ls-remote " +++ repoUrl +++ " refs/heads/*") ;;
     ret (JsString.trim output))
    (fun error => throw error).

Definition readLastCommits : M string :=
  present <- existsSync LAST_COMMIT_FILE ;;
  if (present : bool)
  then data <- readFileSync LAST_COMMIT_FILE ;; ret (JsString.trim data)
  else ret "".

Definition writeLastCommits (data : string) : M unit :=
  writeFileSync LAST_COMMIT_FILE data.

Definition syncRepo : M unit :=
  let repoUrl := getAuthenticatedRepoUrl in
  try_catch
    (present <- existsSync LOCAL_REPO ;;
     (if (present : bool)
      then execSync ("rm -rf " +++ LOCAL_REPO) ;;; ret tt
      else ret tt) ;;;
     execSync ("git clone --mirror " +++ repoUrl +++ " " +++ LOCAL_REPO) ;;;
     ret tt)
    (fun error => throw error).

(** *** The report *)

(** [commitTime.toLocaleString('zh-CN', { timeZone: 'Asia/Shanghai', ... })]
    with the options of the report: the work of the runtime's
    locale data. *)
Variable toLocaleString : Date -> string.

Definition nl : string := String JsString.lf EmptyString.
Definition dquote : string := String (ascii_of_nat 34) EmptyString.

(** [v.substring(0, 7)] on a value that passed, or skipped, a truth
    test. *)
Definition substring_0_7 (what : string) (v : value) : completion string :=
  match v with
  | Str s => Normal (JsString.substring0 7 s)
  | Inherited _ => Throw (TypeError_not_a_function (what +++ ".substring"))
  | Undefined | Null => Throw (TypeError_undefined "substring")
  end.

(** One turn of the [forEach] that renders the records. *)
Definition render_record (message : string) (r : ChangeRecord) : completion string :=
  match (if ToBoolean (oldHash r) then substring_0_7 "oldHash" (oldHash r)
         else Normal "无") with
  | Normal shortOldHash =>
      match substring_0_7 "newHash" (newHash r) with
      | Normal shortNewHash =>
          let commitTimeString := toLocaleString (commitTime r) in
          let message :=
            if is_new r
            then message +++ "🆕 <b>" +++ branch r +++ "</b> (新增分支)" +++ nl
            else (message +++ "🔁 <b>" +++ branch r +++ "</b>" +++ nl)
                 +++ "   " +++ shortOldHash +++ " → " +++ shortNewHash +++ nl in
          let message := message +++ "   🕐 " +++ commitTimeString +++ nl in
          Normal (message +++ "   🔗 <a href=" +++ dquote +++ url r +++ dquote
                  +++ ">查看分支</a>" +++ nl +++ nl)
      | Throw e => Throw e
      | Exit c => Exit c
      end
  | Throw e => Throw e
  | Exit c => Exit c
  end.

Fixpoint render_records (message : string) (l : list ChangeRecord)
  : completion string :=
  match l with
  | [] => Normal message
  | r :: rest =>
      match render_record message r with
      | Normal message' => render_records message' rest
      | Throw e => Throw e
      | Exit c => Exit c
      end
  end.

Definition render (changedBranches : list ChangeRecord) : completion string :=
  let message := "✅ <b>edgetunnel 仓库已更新</b>" +++ nl +++ nl in
  if (0 <? List.length changedBranches)%nat
  then render_records (message +++ "<b>更新的分支 (按更新时间排序):</b>" +++ nl)
         changedBranches
  else Normal (message +++ "检测到变化但无法确定具体更新的分支。" +++ nl +++ nl).

Definition failure_text (e : error) : string := "❌ 同步失败: " +++ message e.

(** *** main *)

(** The [try] block of main. *)
Definition main_try : M unit :=
  latestText <- getLatestCommits ;;
  lastText <- readLastCommits ;;
  if negb (String.eqb latestText lastText)
  then
    oldCommits <- (if JsString.truthy lastText
                   then lift (parseCommitsData lastText)
                   else ret JsObject.empty) ;;
    newCommits <- lift (parseCommitsData latestText) ;;
    changedBranches <- getChangedBranches oldCommits newCommits ;;
    repoUpdateTime <- getRepoLastUpdateTime ;;
    syncRepo ;;;
    writeLastCommits latestText ;;;
    message <- lift (render changedBranches) ;;
    sendTelegramMessage message
  else ret tt.

Definition main : M unit :=
  try_catch main_try
    (fun error =>
       sendTelegramMessage (failure_text error) ;;;
       process_exit 1%Z).

End Script.

(** ** The earlier variant: every branch exported to a directory

    It shares the configuration, [sendTelegramMessage], [getLatestCommits],
    [readLastCommits] and [writeLastCommits] with [sync.js]; its [syncRepo]
    and [main] differ. *)

Module AllBranches.

Section Script.

Variable cfg : config.
Variable env : environment.

(** [date.toISOString()] and [JSON.stringify(o, null, 2)] for an
    object of string properties: the runtime's own. *)
Variable toISOString : Z -> string.
Variable JSON_stringify : list (string * string) -> string.

Definition item (xs : list string) (i : nat) : value :=
  match nth_error xs i with
  | Some x => Str x
  | None => Undefined
  end.

Fixpoint branch_names (lines : list string) : completion (list string) :=
  match lines with
  | [] => Normal []
  | line :: rest =>
      match item (JsString.split JsString.tab line) 1 with
      | Str ref =>
          match branch_names rest with
          | Normal bs => Normal (JsString.replace "refs/heads/" "" ref :: bs)
          | other => other
          end
      | _ => Throw (TypeError_undefined "replace")
      end
  end.

Definition getAllBranches : M (list string) :=
  let repoUrl := getAuthenticatedRepoUrl cfg in
  try_catch
    (output <- execSync env ("git ls-remote --heads " +++ repoUrl) ;;
     lift (branch_names
             (filter JsString.truthy
                (JsString.split JsString.lf (JsString.trim output)))))
    (fun error => throw error).

Definition syncRepo : M unit :=
  let repoUrl := getAuthenticatedRepoUrl cfg in
  try_catch
    (present <- existsSync env LOCAL_REPO ;;
     (if (present : bool)
      then execSync env ("rm -rf " +++ LOCAL_REPO) ;;; ret tt
      else ret tt) ;;;
     execSync env ("git clone --bare " +++ repoUrl +++ " " +++ LOCAL_REPO) ;;;
     ret tt)
    (fun error => throw error).

Definition new_Date : M Z :=
  now <- clock ;; ret (Date_now env now).

(** Every failure inside is caught and only logged. *)
Definition copyBranchFiles (branch : string) : M unit :=
  try_catch
    (let branchDir := "branches/" +++ branch in
     present <- existsSync env branchDir ;;
     (if (present : bool)
      then execSync env ("rm -rf " +++ branchDir) ;;; ret tt
      else ret tt) ;;;
     emit (MkdirSync branchDir) ;;;
     execSync env ("cd " +++ LOCAL_REPO +++ " && git archive --format=tar "
                   +++ branch +++ " | tar -x -C ../" +++ branchDir) ;;;
     lastSync <- new_Date ;;
     commit <- execSync env ("cd " +++ LOCAL_REPO +++ " && git rev-parse " +++ branch) ;;
     writeFileSync env (branchDir +++ "/branch-info.json")
       (JSON_stringify [ ("branch", branch);
                         ("lastSync", toISOString lastSync);
                         ("commit", JsString.trim commit) ]))
    (fun error => ret tt).

Fixpoint copy_each (branches : list string) : M unit :=
  match branches with
  | [] => ret tt
  | b :: rest => copyBranchFiles b ;;; copy_each rest
  end.

Definition createBranchesIndex (branches : list string) : M unit :=
  stamp <- new_Date ;;
  let indexContent :=
    JsString.trim
      (nl +++ "# Edgetunnel 所有分支同步" +++ nl +++ nl
       +++ "本仓库自动同步 [cmliu/edgetunnel](https://github.com/cmliu/edgetunnel) 的所有分支。"
       +++ nl +++ nl +++ "## 可用分支" +++ nl +++ nl
       +++ String.concat nl
             (map (fun b => "- [" +++ b +++ "](./branches/" +++ b +++ "/)") branches)
       +++ nl +++ nl +++ "## 最后同步时间" +++ nl +++ nl
       +++ toISOString stamp +++ nl +++ nl
       +++ "> 此仓库通过 GitHub Actions 自动同步，每天检查更新。" +++ nl +++ "  ") in
  writeFileSync env "BRANCHES.md" indexContent.

Definition main : M unit :=
  try_catch
    (latest <- getLatestCommits cfg env ;;
     last <- readLastCommits env ;;
     if negb (String.eqb latest last)
     then
       syncRepo ;;;
       branches <- getAllBranches ;;
       present <- existsSync env "branches" ;;
       (if (present : bool)
        then execSync env "rm -rf branches" ;;; ret tt
        else ret tt) ;;;
       copy_each branches ;;;
       createBranchesIndex branches ;;;
       writeLastCommits env latest ;;;
       sendTelegramMessage cfg env
         ("✅ edgetunnel 仓库有更新，已同步 "
          +++ decimal_of_Z (Z.of_nat (List.length branches))
          +++ " 个分支。" +++ nl +++ nl +++ "分支列表:" +++ nl
          +++ String.concat nl (map (fun b => "• " +++ b) branches))
     else ret tt)
    (fun error =>
       sendTelegramMessage cfg env (failure_text error) ;;;
       process_exit 1%Z).

End Script.

End AllBranches.

(** * The vocabulary of the properties *)

(** ** Change records before and after their lookups *)



Definition commit_url (commitHash : string) : string :=
  "https://api.github.com/repos/cmliu/edgetunnel/commits/" +++ commitHash.

(** The Date getBranchCommitTime makes of an answer. *)
Definition resolved (answer : fetch_outcome date_body) : Date :=
  match answer with
  | Response status (DateField d) => if ok status then d else TimeValue 0
  | _ => TimeValue 0
  end.

(** The lookup throws inside its [try]: the request is rejected, the
    status is not a 2xx one, the body does not parse, or the path to the
    date cannot be read. *)
Definition lookup_failed (answer : fetch_outcome date_body) : bool :=
  match answer with
  | Response status (DateField _) => negb (ok status)
  | _ => true
  end.


Definition with_time (t : Date) (r : ChangeRecord) : ChangeRecord :=
  {| branch := branch r; oldHash := oldHash r; newHash := newHash r;
     commitTime := t; url := url r; isNew := isNew r |}.

Definition pending (b : string) (old new : value) (flag : option bool) : ChangeRecord :=
  {| branch := b; oldHash := old; newHash := new; commitTime := TimeValue 0;
     url := tree_url b; isNew := flag |}.

(** The test and the record of the first loop, for one entry of the new
    snapshot; then those of the second loop, for one of its keys. *)
Definition changed (oldCommits : JsObject.t) (kv : string * string) : bool :=
  negb (strict_eq_string (JsObject.get oldCommits (fst kv)) (snd kv)).

Definition update_of (oldCommits : JsObject.t) (kv : string * string) : ChangeRecord :=
  pending (fst kv) (JsObject.get oldCommits (fst kv)) (Str (snd kv)) None.

Definition unknown (oldCommits : JsObject.t) (b : string) : bool :=
  negb (ToBoolean (JsObject.get oldCommits b)).

Definition addition_of (newCommits : JsObject.t) (b : string) : ChangeRecord :=
  pending b Null (JsObject.get newCommits b) (Some true).

(** The records of the first loop and of the second, in the order they
    are pushed, before their times are looked up. *)
Definition updates (oldCommits newCommits : JsObject.t) : list ChangeRecord :=
  map (update_of oldCommits) (filter (changed oldCommits) (JsObject.entries newCommits)).

Definition additions (oldCommits newCommits : JsObject.t) : list ChangeRecord :=
  map (addition_of newCommits) (filter (unknown oldCommits) (JsObject.keys newCommits)).

Definition candidates (oldCommits newCommits : JsObject.t) : list ChangeRecord :=
  updates oldCommits newCommits ++ additions oldCommits newCommits.

Definition lookup_event (cfg : config) (env : environment) (n : nat) (r : ChangeRecord)
  : event :=
  let u := commit_url (ToString (newHash r)) in
  Fetch u (api_headers cfg) (github_api env n u).

(** The lookups for the records [l], the first made at clock [n]: the
    records with the times they resolve to, and the events they leave. *)
Fixpoint stamp (env : environment) (n : nat) (l : list ChangeRecord)
  : list ChangeRecord :=
  match l with
  | [] => []
  | r :: l' =>
      with_time (resolved (github_api env n (commit_url (ToString (newHash r))))) r
      :: stamp env (S n) l'
  end.

Fixpoint lookups (cfg : config) (env : environment) (n : nat) (l : list ChangeRecord)
  : list event :=
  match l with
  | [] => []
  | r :: l' => lookup_event cfg env n r :: lookups cfg env (S n) l'
  end.

Definition after (w : world) (evs : list event) : world :=
  {| disk := disk w; trace := trace w ++ evs |}.

(** The array before the sort: the candidates, each with the time its
    own lookup resolved to. *)
Definition unsorted (env : environment) (oldCommits newCommits : JsObject.t) (w : world)
  : list ChangeRecord :=
  stamp env (List.length (trace w)) (candidates oldCommits newCommits).

(** A snapshot: an object whose keys are distinct, as the keys of an
    object are, and whose commit identifiers are non-empty. *)
Definition snapshot (A : JsObject.t) : Prop :=
  NoDup (JsObject.keys A) /\ Forall (fun kv => snd kv <> "") A.


(** ** Listings and their lines *)

(** The assignment [o[k] = v] takes effect unless the key is [__proto__]
    and the object has no such property of its own. *)
Definition assignable (o : JsObject.t) (k : string) : bool :=
  match JsObject.own o k with
  | Some _ => true
  | None => negb (String.eqb k "__proto__")
  end.

(** [line.includes(c)] for a one-character [c]. *)
Fixpoint contains (c : ascii) (s : string) : bool :=
  match s with
  | EmptyString => false
  | String a s' => Ascii.eqb a c || contains c s'
  end.

(** What a line binds: the branch its ref names, and its hash. *)
Definition binding (line : string) : option (string * string) :=
  match JsString.split JsString.tab line with
  | hash :: ref :: _ => Some (JsString.replace "refs/heads/" "" ref, hash)
  | _ => None
  end.

(** The hash of the last of [lines] that names [b], with [before] for
    a branch that none of them names. *)
Fixpoint last_hash (b : string) (before : option string) (lines : list string)
  : option string :=
  match lines with
  | [] => before
  | line :: rest =>
      last_hash b
        (match binding line with
         | Some (b', hash) => if String.eqb b' b then Some hash else before
         | None => before
         end)
        rest
  end.

(** The lines parseCommitsData works on. *)
Definition commit_lines (commitsText : string) : list string :=
  filter nonblank (JsString.split JsString.lf commitsText).

(** The text of a listing: one line per pair, hash, tab, ref. *)
Definition listing (l : list (string * string)) : string :=
  String.concat nl
    (map (fun p => fst p +++ String JsString.tab EmptyString +++ snd p) l).

(** ** Runs *)

Definition listing_command (cfg : config) : string :=
  "git ls-remote " +++ getAuthenticatedRepoUrl cfg +++ " refs/heads/*".

(** The events the short-circuit rules out: a command other than the
    listing (the mirror is one), a file written, a message sent. *)
Definition beyond_listing (cfg : config) (ev : event) : bool :=
  match ev with
  | ExecSync command _ => negb (String.eqb command (listing_command cfg))
  | Fetch _ _ _ => false
  | SendMessage _ _ _ _ _ => true
  | WriteFileSync _ _ => true
  | MkdirSync _ => true
  end.

Definition sendMessage_url (cfg : config) : string :=
  "https://api.telegram.org/bot" +++ env_text (TELEGRAM_BOT_TOKEN cfg) +++ "/sendMessage".

(** The event of a message posted from a world whose trace is [before]. *)
Definition posted (cfg : config) (env : environment) (before : list event)
    (text : string) : event :=
  SendMessage (sendMessage_url cfg) (env_text (TELEGRAM_CHAT_ID cfg)) text "HTML"
    (telegram_api env (List.length before) (sendMessage_url cfg)).

Definition not_a_command (ev : event) : Prop :=
  forall command outcome, ev <> ExecSync command outcome.

(** Three disciplines a computation may keep, each over the events it adds
    to the trace.  [silent]: no command at all, the disk untouched.
    [careful]: the disk untouched, and a command that fails is thrown.
    [guarded]: a command that fails is thrown with the disk still
    untouched.  [commandless]: no command, the disk free to change.  None
    of them exits the process. *)
Section Disciplines.

Context {A : Type}.

Definition no_exit (c : completion A) : Prop := forall code, c <> Exit code.

Definition silent (m : M A) : Prop :=
  forall w, exists added,
    trace (snd (m w)) = trace w ++ added
    /\ disk (snd (m w)) = disk w
    /\ no_exit (fst (m w))
    /\ forall command outcome, ~ In (ExecSync command outcome) added.

Definition careful (m : M A) : Prop :=
  forall w, exists added,
    trace (snd (m w)) = trace w ++ added
    /\ disk (snd (m w)) = disk w
    /\ no_exit (fst (m w))
    /\ forall command e, In (ExecSync command (ExecFailed e)) added ->
                         fst (m w) = Throw e.

Definition commandless (m : M A) : Prop :=
  forall w, exists added,
    trace (snd (m w)) = trace w ++ added
    /\ no_exit (fst (m w))
    /\ forall command outcome, ~ In (ExecSync command outcome) added.

Definition guarded (m : M A) : Prop :=
  forall w, exists added,
    trace (snd (m w)) = trace w ++ added
    /\ no_exit (fst (m w))
    /\ forall command e, In (ExecSync command (ExecFailed e)) added ->
                         fst (m w) = Throw e /\ disk (snd (m w)) = disk w.

End Disciplines.

(** ** The inputs of the scenarios *)

Definition previous_main : JsObject.t := [("main", "aaa1111")].
Definition current_main_dev : JsObject.t := [("main", "bbb2222"); ("dev", "ccc3333")].
Definition current_main : JsObject.t := [("main", "aaa1111")].
Definition previous_main_dev : JsObject.t := [("main", "aaa1111"); ("dev", "ccc3333")].
Definition current_both_moved : JsObject.t := [("main", "bbb2222"); ("dev", "ddd4444")].

Definition no_config : config :=
  {| TELEGRAM_BOT_TOKEN := None; TELEGRAM_CHAT_ID := None; GH_TOKEN := None |}.

Definition bot_config : config :=
  {| TELEGRAM_BOT_TOKEN := Some "123:abc"; TELEGRAM_CHAT_ID := Some "42";
     GH_TOKEN := None |}.

(** Surroundings in which every command prints nothing and every request
    is answered 200, a commit lookup with the date [1000]. *)
Definition calm_env : environment :=
  {| execSync_outcome := fun _ _ => Stdout "";
     directory_exists := fun _ _ => false;
     github_api := fun _ _ => Response 200 (DateField 1000);
     telegram_api := fun _ _ => Response 200 tt;
     Date_now := fun _ => 0%Z |}.

(** The same, except that the request made at clock [n] is rejected. *)
Definition failing_at (n : nat) : environment :=
  {| execSync_outcome := fun _ _ => Stdout "";
     directory_exists := fun _ _ => false;
     github_api := fun m _ =>
       if Nat.eqb m n then Rejected {| name := "FetchError"; message := "timeout" |}
       else Response 200 (DateField 1000);
     telegram_api := fun _ _ => Response 200 tt;
     Date_now := fun _ => 0%Z |}.

(** The remote lists main at aaa1111, with a final line feed. *)
Definition same_listing_env : environment :=
  {| execSync_outcome := fun _ _ =>
       Stdout (listing [("aaa1111", "refs/heads/main")] +++ nl);
     directory_exists := fun _ _ => false;
     github_api := fun _ _ => Response 200 (DateField 1000);
     telegram_api := fun _ _ => Response 200 tt;
     Date_now := fun _ => 0%Z |}.

(** The same, except that the request made at clock [n] is answered 200
    with a body whose committer has no date. *)
Definition dateless_at (n : nat) : environment :=
  {| execSync_outcome := fun _ _ => Stdout "";
     directory_exists := fun _ _ => false;
     github_api := fun m _ =>
       if Nat.eqb m n then Response 200 (DateField InvalidDate)
       else Response 200 (DateField 1000);
     telegram_api := fun _ _ => Response 200 tt;
     Date_now := fun _ => 0%Z |}.

(** Three branches that all moved; the lookups answer the date 3000, a
    body whose committer has no date, and the date 1000. *)
Definition previous_three : JsObject.t :=
  [("main", "aaa1111"); ("dev", "ccc3333"); ("beta", "eee5555")].
Definition current_three_moved : JsObject.t :=
  [("main", "bbb2222"); ("dev", "ddd4444"); ("beta", "fff6666")].


(** The lookups answer the dates 3000, 2000 and 1000. *)
Definition latest_first : environment :=
  {| execSync_outcome := fun _ _ => Stdout "";
     directory_exists := fun _ _ => false;
     github_api := fun m _ =>
       if Nat.eqb m 0 then Response 200 (DateField 3000)
       else if Nat.eqb m 1 then Response 200 (DateField 2000)
       else Response 200 (DateField 1000);
     telegram_api := fun _ _ => Response 200 tt;
     Date_now := fun _ => 0%Z |}.

Definition listing_error : error :=
  {| name := "Error"; message := "Command failed: git ls-remote" |}.

(** Every command fails, the listing first. *)
Definition unreachable_remote : environment :=
  {| execSync_outcome := fun _ _ => ExecFailed listing_error;
     directory_exists := fun _ _ => false;
     github_api := fun _ _ => Response 200 (DateField 1000);
     telegram_api := fun _ _ => Response 200 tt;
     Date_now := fun _ => 0%Z |}.

Definition clone_error : error :=
  {| name := "Error"; message := "Command failed: git clone" |}.

(** The remote lists main at bbb2222 and the clone fails. *)
Definition clone_fails : environment :=
  {| execSync_outcome := fun _ command =>
       match JsString.strip "git clone" command with
       | Some _ => ExecFailed clone_error
       | None => Stdout (listing [("bbb2222", "refs/heads/main")])
       end;
     directory_exists := fun _ _ => false;
     github_api := fun _ _ => Response 200 (DateField 1000);
     telegram_api := fun _ _ => Response 200 tt;
     Date_now := fun _ => 0%Z |}.

(** A remote with a branch called [__proto__], listed on two lines. *)
Definition proto_listing : string :=
  listing [("aaa1111", "refs/heads/__proto__"); ("bbb2222", "refs/heads/__proto__")].

(** * Further vocabulary *)

(** ** Lines and names *)

(** A listing with a blank line between two parts, and without it. *)
Definition with_blank_line (a blank b : string) : string :=
  a +++ nl +++ blank +++ nl +++ b.

Definition without_blank_line (a b : string) : string := a +++ nl +++ b.

(** ** Requests and commands *)

Definition repo_url : string := "https://api.github.com/repos/cmliu/edgetunnel".

Definition remove_command : string := "rm -rf " +++ LOCAL_REPO.

Definition clone_command (cfg : config) : string :=
  "git clone --mirror " +++ getAuthenticatedRepoUrl cfg +++ " " +++ LOCAL_REPO.

Definition configured (cfg : config) : bool :=
  set_and_nonempty (TELEGRAM_BOT_TOKEN cfg) && set_and_nonempty (TELEGRAM_CHAT_ID cfg).

(** How execSync ends on an answer, its output dropped. *)
Definition completion_of (answer : exec_outcome) : completion unit :=
  match answer with
  | Stdout _ => Normal tt
  | ExecFailed e => Throw e
  end.

(** [fs.existsSync(path)] as a value. *)
Definition exists_now (env : environment) (w : world) (path : string) : bool :=
  match JsObject.own (disk w) path with
  | Some _ => true
  | None => directory_exists env (List.length (trace w)) path
  end.

(** [path] is the directory [dir] or lies below it. *)
Definition inside (dir path : string) : bool :=
  String.eqb path dir
  || match JsString.strip (dir +++ "/") path with
     | Some _ => true
     | None => false
     end.

(** None of the files stands where the mirror goes, or below it: the
    removal of the mirror then takes none of them away. *)
Definition mirror_free (files : list (string * string)) : Prop :=
  forall path, inside LOCAL_REPO path = true -> JsObject.own files path = None.

(** The local copy is there and its removal fails. *)
Definition removal_error : error :=
  {| name := "Error"; message := "Command failed: rm -rf edgetunnel" |}.

Definition removal_fails : environment :=
  {| execSync_outcome := fun _ _ => ExecFailed removal_error;
     directory_exists := fun _ _ => true;
     github_api := fun _ _ => Response 200 (DateField 1000);
     telegram_api := fun _ _ => Response 200 tt;
     Date_now := fun _ => 0%Z |}.

(** ** Reports *)

(** A record the report can render: its oldHash is not a member of
    Object.prototype and its newHash is a string. *)
Definition renderable (r : ChangeRecord) : Prop :=
  (forall k, oldHash r <> Inherited k) /\ exists h, newHash r = Str h.

(** No branch of the new snapshot makes the previous snapshot answer with
    a member of Object.prototype. *)
Definition no_inherited_names (oldCommits newCommits : JsObject.t) : Prop :=
  forall b k, In b (JsObject.keys newCommits) ->
              JsObject.get oldCommits b <> Inherited k.

(** ** The earlier variant *)

Definition heads_command (cfg : config) : string :=
  "git ls-remote --heads " +++ getAuthenticatedRepoUrl cfg.

(** The branch a line of the listing names: its second field, without
    the first [refs/heads/]. *)
Definition ref_name (line : string) : string :=
  match JsString.split JsString.tab line with
  | _ :: ref :: _ => JsString.replace "refs/heads/" "" ref
  | _ => ""
  end.

(** The lines getAllBranches maps over. *)
Definition head_lines (output : string) : list string :=
  filter JsString.truthy (JsString.split JsString.lf (JsString.trim output)).

(** The remote lists main and dev with a line of one space in between. *)
Definition spaced_listing_env : environment :=
  {| execSync_outcome := fun _ _ =>
       Stdout (with_blank_line (listing [("aaa1111", "refs/heads/main")]) " "
                 (listing [("ccc3333", "refs/heads/dev")]));
     directory_exists := fun _ _ => false;
     github_api := fun _ _ => Response 200 (DateField 1000);
     telegram_api := fun _ _ => Response 200 tt;
     Date_now := fun _ => 0%Z |}.

(** The remote lists main and dev. *)
Definition two_heads_env : environment :=
  {| execSync_outcome := fun _ _ =>
       Stdout (listing [("aaa1111", "refs/heads/main"); ("ccc3333", "refs/heads/dev")]
               +++ nl);
     directory_exists := fun _ _ => false;
     github_api := fun _ _ => Response 200 (DateField 1000);
     telegram_api := fun _ _ => Response 200 tt;
     Date_now := fun _ => 0%Z |}.

(** Two more disciplines, on the persisted listing alone.  [keeps_listing]:
    the computation does not exit and leaves last_commit.txt as it was,
    however it ends.  [fails_before_persisting]: it does not exit, and
    when it throws last_commit.txt is as it was. *)
Definition keeps_listing {A : Type} (m : M A) : Prop :=
  forall w,
    no_exit (fst (m w))
    /\ JsObject.own (disk (snd (m w))) LAST_COMMIT_FILE
       = JsObject.own (disk w) LAST_COMMIT_FILE.

Definition fails_before_persisting {A : Type} (m : M A) : Prop :=
  forall w,
    no_exit (fst (m w))
    /\ forall e, fst (m w) = Throw e ->
                 JsObject.own (disk (snd (m w))) LAST_COMMIT_FILE
                 = JsObject.own (disk w) LAST_COMMIT_FILE.

(** Every command fails, no directory exists. *)
Definition nothing_works : environment :=
  {| execSync_outcome := fun _ _ => ExecFailed listing_error;
     directory_exists := fun _ _ => false;
     github_api := fun _ _ => Rejected listing_error;
     telegram_api := fun _ _ => Rejected listing_error;
     Date_now := fun _ => 0%Z |}.

(** The listing answers main at bbb2222; every later command fails. *)
Definition only_listing_works : environment :=
  {| execSync_outcome := fun n _ =>
       if Nat.eqb n 0 then Stdout (listing [("bbb2222", "refs/heads/main")])
       else ExecFailed clone_error;
     directory_exists := fun _ _ => false;
     github_api := fun _ _ => Response 200 (DateField 1000);
     telegram_api := fun _ _ => Response 200 tt;
     Date_now := fun _ => 0%Z |}.

(** No file is written among these events. *)
Definition no_write (evs : list event) : Prop :=
  forall path data, ~ In (WriteFileSync path data) evs.

(** The remote lists main at bbb2222; every command succeeds with that
    output. *)
Definition moved_listing_env : environment :=
  {| execSync_outcome := fun _ _ => Stdout (listing [("bbb2222", "refs/heads/main")]);
     directory_exists := fun _ _ => false;
     github_api := fun _ _ => Response 200 (DateField 1000);
     telegram_api := fun _ _ => Response 200 tt;
     Date_now := fun _ => 0%Z |}.

(** * Properties *)

(** ** The string and object primitives at work *)

Example split_lines :
  JsString.split JsString.lf (JsString.bytes [97; 10; 98; 10]) = ["a"; "b"; ""].
Proof. reflexivity. Qed.

Example trim_both :
  JsString.trim (JsString.bytes [32; 9; 97; 32; 98; 194; 160; 10]) = "a b".
Proof. reflexivity. Qed.

(** [substring(0, n)] counts code units: one for a code point of up to
    three bytes, two for one of four, of which a cut may keep the first
    only. *)
Example substring_hash : JsString.substring0 7 "aaa1111bbb2222" = "aaa1111".
Proof. reflexivity. Qed.

Example substring_three_bytes :
  JsString.substring0 2 (JsString.bytes [230; 151; 160; 230; 151; 160; 230; 151; 160])
  = JsString.bytes [230; 151; 160; 230; 151; 160].
Proof. reflexivity. Qed.

Example substring_half_pair :
  JsString.substring0 3 (JsString.bytes [240; 159; 152; 128; 240; 159; 152; 128])
  = JsString.bytes [240; 159; 152; 128; 237; 160; 189].
Proof. reflexivity. Qed.

Example replace_prefix :
  JsString.replace "refs/heads/" "" "refs/heads/main" = "main".
Proof. reflexivity. Qed.

Example parse_two :
  parseCommitsData (listing [("bbb2222", "refs/heads/main"); ("ccc3333", "refs/heads/dev")])
  = Normal [("main", "bbb2222"); ("dev", "ccc3333")].
Proof. reflexivity. Qed.

Example parse_index_order :
  parseCommitsData (listing [("a", "refs/heads/main"); ("b", "refs/heads/10");
                             ("c", "refs/heads/9"); ("d", "refs/heads/main")])
  = Normal [("9", "c"); ("10", "b"); ("main", "d")].
Proof. reflexivity. Qed.

(** A lookup of a key the object does not own falls through to
    Object.prototype. *)
Example get_inherited :
  JsObject.get previous_main "constructor" = Inherited "constructor"
  /\ JsObject.get previous_main "dev" = Undefined
  /\ JsObject.get previous_main "main" = Str "aaa1111".
Proof. repeat split. Qed.

Example parse_no_tab : parseCommitsData "abc" = Throw (TypeError_undefined "replace").
Proof. reflexivity. Qed.

(** ** trim runs to the end *)

Lemma strip_length (p s r : string) :
  JsString.strip p s = Some r -> String.length s = String.length p + String.length r.
Proof.
  revert s; induction p as [|a p IH]; intros s; simpl.
  - now intros [= ->].
  - destruct s as [|b s]; [discriminate|].
    destruct (Ascii.eqb a b); [|discriminate].
    intros H. simpl. now rewrite (IH s H).
Qed.

Lemma strip_any_shorter (ps : list string) (s r : string) :
  Forall (fun p => p <> "") ps ->
  JsString.strip_any ps s = Some r -> String.length r < String.length s.
Proof.
  induction 1 as [|p ps Hp Hps IH]; simpl; [discriminate|].
  destruct (JsString.strip p s) as [r'|] eqn:E.
  - intros [= ->]. apply strip_length in E.
    destruct p; [congruence | simpl in E; lia].
  - exact IH.
Qed.

(** With the length of the string for fuel, nothing is left to strip. *)
Lemma strip_all_done (ps : list string) :
  Forall (fun p => p <> "") ps ->
  forall fuel s, String.length s <= fuel ->
                 JsString.strip_any ps (JsString.strip_all fuel ps s) = None.
Proof.
  intros Hps. induction fuel as [|n IH]; intros s Hs; simpl.
  - destruct s; [|simpl in Hs; lia].
    clear Hs. induction Hps as [|p ps Hp _ IHps]; simpl; [reflexivity|].
    destruct p; [congruence | exact IHps].
  - destruct (JsString.strip_any ps s) as [r|] eqn:E; [|exact E].
    apply IH. apply (strip_any_shorter ps s r Hps) in E. lia.
Qed.

Lemma WhiteSpace_nonempty : Forall (fun p => p <> "") JsString.WhiteSpace.
Proof. repeat constructor; discriminate. Qed.

Lemma trimStart_done (s : string) :
  JsString.strip_any JsString.WhiteSpace (JsString.trimStart s) = None.
Proof. apply strip_all_done; [apply WhiteSpace_nonempty | apply Nat.le_refl]. Qed.

Lemma rev_acc_length (s acc : string) :
  String.length (JsString.rev_acc acc s) = String.length acc + String.length s.
Proof.
  revert acc; induction s as [|c s IH]; intros acc; simpl; [lia|].
  rewrite IH. simpl. lia.
Qed.

Lemma trimEnd_done (s : string) :
  JsString.strip_any (map JsString.rev JsString.WhiteSpace)
    (JsString.strip_all (String.length s) (map JsString.rev JsString.WhiteSpace)
       (JsString.rev s)) = None.
Proof.
  apply strip_all_done.
  - repeat constructor; discriminate.
  - unfold JsString.rev. rewrite rev_acc_length. simpl. apply Nat.le_refl.
Qed.

(** ** Sorting *)

Section Sorting.

Context {A : Type} (cmp : A -> A -> Z).

Lemma sort_insert_perm (x : A) (l : list A) :
  Permutation (sort_insert cmp x l) (x :: l).
Proof.
  induction l as [|y l IH]; simpl.
  - apply Permutation_refl.
  - destruct (cmp x y <=? 0)%Z.
    + apply Permutation_refl.
    + apply perm_trans with (y :: x :: l).
      * apply perm_skip, IH.
      * apply perm_swap.
Qed.

Lemma Array_sort_perm (l : list A) : Permutation (Array_sort cmp l) l.
Proof.
  induction l as [|x l IH]; simpl.
  - apply perm_nil.
  - eapply perm_trans; [apply sort_insert_perm|].
    apply perm_skip, IH.
Qed.

Lemma Array_sort_length (l : list A) :
  List.length (Array_sort cmp l) = List.length l.
Proof. apply Permutation_length, Array_sort_perm. Qed.

Lemma Array_sort_In (l : list A) (x : A) : In x (Array_sort cmp l) <-> In x l.
Proof.
  split; apply Permutation_in.
  - apply Array_sort_perm.
  - apply Permutation_sym, Array_sort_perm.
Qed.

End Sorting.




(** ** Lookups in an object *)

Lemma own_In (o : JsObject.t) (k v : string) :
  JsObject.own o k = Some v -> In (k, v) o.
Proof.
  induction o as [|[k' v'] o IH]; simpl; [discriminate|].
  destruct (String.eqb k' k) eqn:E.
  - apply String.eqb_eq in E. intros [= ->]. subst. now left.
  - intros H. right. now apply IH.
Qed.

Lemma own_None (o : JsObject.t) (k : string) :
  JsObject.own o k = None <-> ~ In k (JsObject.keys o).
Proof.
  induction o as [|[k' v'] o IH]; simpl.
  - tauto.
  - destruct (String.eqb k' k) eqn:E.
    + apply String.eqb_eq in E. split; [discriminate | intros H; exfalso; apply H; now left].
    + apply String.eqb_neq in E. rewrite IH. tauto.
Qed.

Lemma In_own (o : JsObject.t) (k v : string) :
  NoDup (JsObject.keys o) -> In (k, v) o -> JsObject.own o k = Some v.
Proof.
  induction o as [|[k' v'] o IH]; simpl; [tauto|].
  intros Hnd [H|H].
  - injection H as -> ->. now rewrite String.eqb_refl.
  - inversion Hnd as [|? ? Hk Hnd']; subst.
    destruct (String.eqb k' k) eqn:E.
    + apply String.eqb_eq in E; subst. exfalso. apply Hk.
      change k with (fst (k, v)). now apply in_map.
    + now apply IH.
Qed.

Lemma get_own (o : JsObject.t) (k v : string) :
  JsObject.own o k = Some v -> JsObject.get o k = Str v.
Proof. unfold JsObject.get. now intros ->. Qed.

Lemma filter_none {A} (f : A -> bool) (l : list A) :
  (forall x, In x l -> f x = false) -> filter f l = [].
Proof.
  induction l as [|x l IH]; simpl; intros H; [reflexivity|].
  rewrite (H x) by now left. apply IH. intros y Hy. apply H. now right.
Qed.

Lemma truthy_nonempty (s : string) : s <> "" -> JsString.truthy s = true.
Proof. destruct s; [congruence | reflexivity]. Qed.

(** ** Assignments to an object *)

Module SetFacts.

Import JsObject.

Lemma own_update_same (o : t) (k v : string) :
  own o k <> None -> own (update k v o) k = Some v.
Proof.
  induction o as [|[k' v'] o IH]; simpl; [congruence|].
  destruct (String.eqb k' k) eqn:E; simpl; rewrite E; auto.
Qed.

Lemma own_update_other (o : t) (k v k' : string) :
  k' <> k -> own (update k v o) k' = own o k'.
Proof.
  intros Hk. induction o as [|[k0 v0] o IH]; simpl; [reflexivity|].
  destruct (String.eqb k0 k) eqn:E; simpl.
  - apply String.eqb_eq in E; subst.
    destruct (String.eqb k k') eqn:E'; [|reflexivity].
    apply String.eqb_eq in E'. congruence.
  - destruct (String.eqb k0 k'); [reflexivity | exact IH].
Qed.

Lemma keys_update (o : t) (k v : string) : keys (update k v o) = keys o.
Proof.
  induction o as [|[k' v'] o IH]; simpl; [reflexivity|].
  destruct (String.eqb k' k); simpl; [reflexivity | now rewrite IH].
Qed.

Lemma own_insert_index (n : N) (o : t) (k v k' : string) :
  own o k = None ->
  own (insert_index n k v o) k' = if String.eqb k k' then Some v else own o k'.
Proof.
  induction o as [|[k0 v0] o IH]; simpl; intros Hk; [reflexivity|].
  destruct (String.eqb k0 k) eqn:E0; [discriminate|].
  destruct (array_index k0) as [m|]; [destruct (n <? m)%N|]; simpl; try reflexivity.
  rewrite (IH Hk).
  destruct (String.eqb k0 k') eqn:E1; [|reflexivity].
  apply String.eqb_eq in E1; subst. now rewrite String.eqb_sym, E0.
Qed.

Lemma keys_insert_index (n : N) (o : t) (k v : string) :
  Permutation (keys (insert_index n k v o)) (k :: keys o).
Proof.
  induction o as [|[k0 v0] o IH]; simpl; [apply Permutation_refl|].
  destruct (array_index k0) as [m|]; [destruct (n <? m)%N|]; simpl;
    try apply Permutation_refl.
  eapply perm_trans; [apply perm_skip, IH | apply perm_swap].
Qed.

Lemma own_app_last (o : t) (k v k' : string) :
  own o k = None ->
  own (o ++ [(k, v)]) k' = if String.eqb k k' then Some v else own o k'.
Proof.
  induction o as [|[k0 v0] o IH]; simpl; intros Hk.
  - now destruct (String.eqb k k').
  - destruct (String.eqb k0 k) eqn:E0; [discriminate|].
    rewrite (IH Hk).
    destruct (String.eqb k0 k') eqn:E1; [|reflexivity].
    apply String.eqb_eq in E1; subst. now rewrite String.eqb_sym, E0.
Qed.

Lemma own_set (o : t) (k v k' : string) :
  own (set o k v) k'
  = if assignable o k && String.eqb k k' then Some v else own o k'.
Proof.
  unfold set, assignable.
  destruct (own o k) as [old|] eqn:Ho.
  - simpl. destruct (String.eqb k k') eqn:E.
    + apply String.eqb_eq in E; subst. apply own_update_same. congruence.
    + apply own_update_other. apply String.eqb_neq in E. congruence.
  - destruct (String.eqb k "__proto__"); simpl; [reflexivity|].
    destruct (array_index k) as [n|].
    + now apply own_insert_index.
    + now apply own_app_last.
Qed.

Lemma NoDup_set (o : t) (k v : string) :
  NoDup (keys o) -> NoDup (keys (set o k v)).
Proof.
  intros Hnd. unfold set.
  destruct (own o k) as [old|] eqn:Ho.
  - now rewrite keys_update.
  - destruct (String.eqb k "__proto__"); [exact Hnd|].
    assert (Hk : NoDup (k :: keys o)).
    { constructor; [|exact Hnd]. now apply own_None. }
    destruct (array_index k) as [n|].
    + eapply Permutation_NoDup; [apply Permutation_sym, keys_insert_index | exact Hk].
    + unfold keys. rewrite map_app. simpl.
      eapply Permutation_NoDup; [apply Permutation_cons_append | exact Hk].
Qed.

End SetFacts.

(** ** parseCommitsData *)

Lemma split_nonempty (sep : ascii) (s : string) :
  exists w ws, JsString.split sep s = w :: ws.
Proof.
  induction s as [|c s [w [ws IH]]]; simpl.
  - eauto.
  - destruct (Ascii.eqb c sep); [eauto|]. rewrite IH. eauto.
Qed.

Lemma split_contains (sep : ascii) (s : string) :
  contains sep s = true ->
  exists a b rest, JsString.split sep s = a :: b :: rest.
Proof.
  induction s as [|c s IH]; simpl; [discriminate|].
  destruct (Ascii.eqb c sep); simpl.
  - intros _. destruct (split_nonempty sep s) as [w [ws ->]]. eauto.
  - intros H. destruct (IH H) as [a [b [rest ->]]]. eauto.
Qed.

Lemma split_without (sep : ascii) (s : string) :
  contains sep s = false -> JsString.split sep s = [s].
Proof.
  induction s as [|c s IH]; simpl; [reflexivity|].
  destruct (Ascii.eqb c sep); simpl; [discriminate|].
  intros H. now rewrite (IH H).
Qed.

Lemma parseLine_tab (commits : JsObject.t) (line : string) :
  contains JsString.tab line = true ->
  exists b hash,
    binding line = Some (b, hash)
    /\ parseLine commits line = Normal (JsObject.set commits b hash).
Proof.
  intros H. unfold binding, parseLine.
  destruct (split_contains _ _ H) as [hash [ref [rest ->]]]. eauto.
Qed.

Lemma parseLine_no_tab (commits : JsObject.t) (line : string) :
  contains JsString.tab line = false ->
  parseLine commits line = Throw (TypeError_undefined "replace").
Proof.
  intros H. unfold parseLine. now rewrite (split_without _ _ H).
Qed.

Lemma forEach_lines_returns (lines : list string) :
  forall commits,
    Forall (fun line => contains JsString.tab line = true) lines ->
    NoDup (JsObject.keys commits) ->
    JsObject.own commits "__proto__" = None ->
    exists commits',
      forEach_lines lines commits = Normal commits'
      /\ NoDup (JsObject.keys commits')
      /\ JsObject.own commits' "__proto__" = None
      /\ forall b, b <> "__proto__" ->
                   JsObject.own commits' b = last_hash b (JsObject.own commits b) lines.
Proof.
  induction lines as [|line rest IH]; intros commits Htab Hnd Hproto; simpl.
  - exists commits. repeat split; auto.
  - inversion Htab as [|? ? Hline Hrest]; subst.
    destruct (parseLine_tab commits line Hline) as [b0 [hash [Hb ->]]].
    rewrite Hb.
    destruct (IH (JsObject.set commits b0 hash) Hrest) as [o [E [Hnd' [Hp' Hown]]]].
    + now apply SetFacts.NoDup_set.
    + rewrite SetFacts.own_set. unfold assignable.
      destruct (JsObject.own commits b0) eqn:Ho; simpl.
      * destruct (String.eqb b0 "__proto__") eqn:E0; [|exact Hproto].
        apply String.eqb_eq in E0. congruence.
      * destruct (String.eqb b0 "__proto__"); simpl; exact Hproto.
    + exists o. repeat split; auto.
      intros b Hb'. rewrite (Hown b Hb'). f_equal.
      rewrite SetFacts.own_set. unfold assignable.
      destruct (String.eqb b0 b) eqn:E0; [|now rewrite andb_false_r].
      apply String.eqb_eq in E0; subst b0.
      apply String.eqb_neq in Hb'. rewrite Hb'.
      now destruct (JsObject.own commits b).
Qed.

Lemma forEach_lines_throws (lines : list string) :
  forall commits,
    Exists (fun line => contains JsString.tab line = false) lines ->
    forEach_lines lines commits = Throw (TypeError_undefined "replace").
Proof.
  induction lines as [|line rest IH]; intros commits H; simpl.
  - inversion H.
  - destruct (contains JsString.tab line) eqn:E.
    + destruct (parseLine_tab commits line E) as [b0 [hash [_ ->]]].
      apply IH. inversion H; subst; [congruence | assumption].
    + now rewrite (parseLine_no_tab commits line E).
Qed.

(** X1: on a text whose non-blank lines all hold a tab, parseCommitsData
    returns an object with distinct keys in which every branch other than
    [__proto__] is bound as its last non-blank line says, blank lines
    playing no part. *)
Theorem parseCommitsData_returns (commitsText : string) :
  (forall line, In line (JsString.split JsString.lf commitsText) ->
                nonblank line = true -> contains JsString.tab line = true) ->
  exists commits,
    parseCommitsData commitsText = Normal commits
    /\ NoDup (JsObject.keys commits)
    /\ JsObject.own commits "__proto__" = None
    /\ forall b, b <> "__proto__" ->
                 JsObject.own commits b = last_hash b None (commit_lines commitsText).
Proof.
  intros H. unfold parseCommitsData. fold (commit_lines commitsText).
  apply (forEach_lines_returns (commit_lines commitsText) JsObject.empty).
  - apply Forall_forall. intros line Hl. unfold commit_lines in Hl.
    apply filter_In in Hl. destruct Hl as [Hin Hnb]. now apply H.
  - constructor.
  - reflexivity.
Qed.

(** X2: a non-blank line without a tab makes parseCommitsData throw. *)
Theorem parseCommitsData_throws (commitsText line : string) :
  In line (JsString.split JsString.lf commitsText) ->
  nonblank line = true ->
  contains JsString.tab line = false ->
  parseCommitsData commitsText = Throw (TypeError_undefined "replace").
Proof.
  intros Hin Hnb Htab. unfold parseCommitsData.
  apply forEach_lines_throws. apply Exists_exists. exists line. split; [|exact Htab].
  apply filter_In. now split.
Qed.

(** C10: on the listing of a branch called [__proto__], named on two lines
    that both hold a tab, parseCommitsData returns normally, but with an
    empty object: the branch is bound to no hash, where the claim binds it
    to bbb2222, the hash of its last line. *)
Theorem proto_branch_dropped :
  parseCommitsData proto_listing = Normal JsObject.empty
  /\ last_hash "__proto__" None (commit_lines proto_listing) = Some "bbb2222"
  /\ (forall line, In line (JsString.split JsString.lf proto_listing) ->
                   contains JsString.tab line = true).
Proof.
  split; [reflexivity|]. split; [reflexivity|].
  intros line Hl. simpl in Hl.
  destruct Hl as [<-|[<-|[]]]; reflexivity.
Qed.

(** ** What a run of getChangedBranches amounts to *)

Section Run.

Variable cfg : config.
Variable env : environment.

Lemma after_nil (w : world) : after w [] = w.
Proof. destruct w; unfold after; simpl; now rewrite app_nil_r. Qed.

Lemma after_after (w : world) (a b : list event) :
  after (after w a) b = after w (a ++ b).
Proof. unfold after; simpl; now rewrite app_assoc. Qed.

Lemma getBranchCommitTime_run (b h : string) (w : world) :
  getBranchCommitTime cfg env b h w
  = (Normal (resolved (github_api env (List.length (trace w)) (commit_url h))),
     after w [Fetch (commit_url h) (api_headers cfg)
                (github_api env (List.length (trace w)) (commit_url h))]).
Proof.
  unfold getBranchCommitTime, try_catch, fetch_date, bind, clock, emit, after.
  fold (commit_url h).
  destruct (github_api env _ _) as [e|status body]; [reflexivity|].
  unfold resolved.
  destruct body, (ok status); reflexivity.
Qed.

Lemma stamp_app (n : nat) (a b : list ChangeRecord) :
  stamp env n (a ++ b) = stamp env n a ++ stamp env (List.length a + n) b.
Proof.
  revert n; induction a as [|r a IH]; intros n; simpl; [reflexivity|].
  now rewrite IH, Nat.add_succ_r.
Qed.

Lemma lookups_app (n : nat) (a b : list ChangeRecord) :
  lookups cfg env n (a ++ b) = lookups cfg env n a ++ lookups cfg env (List.length a + n) b.
Proof.
  revert n; induction a as [|r a IH]; intros n; simpl; [reflexivity|].
  now rewrite IH, Nat.add_succ_r.
Qed.

Lemma lookups_length (n : nat) (l : list ChangeRecord) :
  List.length (lookups cfg env n l) = List.length l.
Proof. revert n; induction l; intros; simpl; auto. Qed.

Lemma changed_entries_run (oldCommits : JsObject.t) (entries : list (string * string)) :
  forall (acc : list ChangeRecord) (w : world),
    let l := map (update_of oldCommits) (filter (changed oldCommits) entries) in
    changed_entries cfg env oldCommits entries acc w
    = (Normal (acc ++ stamp env (List.length (trace w)) l),
       after w (lookups cfg env (List.length (trace w)) l)).
Proof.
  induction entries as [|[b h] rest IH]; intros acc w;
    cbn [changed_entries filter map].
  - cbn. now rewrite app_nil_r, after_nil.
  - change (negb (strict_eq_string (JsObject.get oldCommits b) h))
      with (changed oldCommits (b, h)).
    destruct (changed oldCommits (b, h)).
    + unfold bind. rewrite getBranchCommitTime_run, IH.
      rewrite after_after.
      cbn [map stamp lookups after trace disk]. rewrite last_length, <- app_assoc.
      reflexivity.
    + apply IH.
Qed.

Lemma new_keys_run (oldCommits newCommits : JsObject.t) (keys : list string) :
  forall (acc : list ChangeRecord) (w : world),
    let l := map (addition_of newCommits) (filter (unknown oldCommits) keys) in
    new_keys cfg env oldCommits newCommits keys acc w
    = (Normal (acc ++ stamp env (List.length (trace w)) l),
       after w (lookups cfg env (List.length (trace w)) l)).
Proof.
  induction keys as [|b rest IH]; intros acc w;
    cbn [new_keys filter map].
  - cbn. now rewrite app_nil_r, after_nil.
  - change (negb (ToBoolean (JsObject.get oldCommits b)))
      with (unknown oldCommits b).
    destruct (unknown oldCommits b).
    + unfold bind. rewrite getBranchCommitTime_run, IH.
      rewrite after_after.
      cbn [map stamp lookups after trace disk]. rewrite last_length, <- app_assoc.
      reflexivity.
    + apply IH.
Qed.

Theorem getChangedBranches_run (oldCommits newCommits : JsObject.t) (w : world) :
  getChangedBranches cfg env oldCommits newCommits w
  = (Normal (Array_sort byCommitTime (unsorted env oldCommits newCommits w)),
     after w (lookups cfg env (List.length (trace w))
                (candidates oldCommits newCommits))).
Proof.
  unfold getChangedBranches, bind, unsorted.
  unfold candidates, updates, additions, JsObject.entries.
  rewrite changed_entries_run; cbv zeta.
  rewrite new_keys_run; cbv zeta.
  rewrite stamp_app, lookups_app, after_after.
  replace (List.length (trace (after w _))) with
    (List.length (map (update_of oldCommits) (filter (changed oldCommits) newCommits))
     + List.length (trace w)).
  - reflexivity.
  - cbn [after trace]. rewrite length_app, lookups_length. apply Nat.add_comm.
Qed.

Lemma stamp_In (n : nat) (l : list ChangeRecord) (r : ChangeRecord) :
  In r (stamp env n l) -> exists c, In c l /\ r = with_time (commitTime r) c.
Proof.
  revert n; induction l as [|c l IH]; intros n; simpl; [tauto|].
  intros [<-|H].
  - exists c; split; [now left | reflexivity].
  - destruct (IH _ H) as [c' [Hc' E]]. exists c'; split; [now right | exact E].
Qed.

Lemma In_stamp (n : nat) (l : list ChangeRecord) (c : ChangeRecord) :
  In c l -> exists t, In (with_time t c) (stamp env n l).
Proof.
  revert n; induction l as [|c' l IH]; intros n; simpl; [tauto|].
  intros [->|H].
  - eexists; left; reflexivity.
  - destruct (IH (S n) H) as [t Ht]. exists t; now right.
Qed.

Lemma lookups_fetch (n : nat) (l : list ChangeRecord) (ev : event) :
  In ev (lookups cfg env n l) -> not_a_command ev.
Proof.
  revert n; induction l as [|r l IH]; intros n; simpl; [tauto|].
  intros [<-|H]; [discriminate | eauto].
Qed.

End Run.

(** ** The change list *)

(** C1: with {main: aaa1111} before and {main: bbb2222, dev: ccc3333} now,
    the code returns three records, not two: main as an update from aaa1111
    to bbb2222, and dev twice, once from the first loop with an undefined
    previous identifier and no flag, once from the second loop flagged
    new. *)
Theorem scenario_update_and_new_branch (cfg : config) (env : environment) (w : world) :
  exists l w' t1 t2 t3,
    getChangedBranches cfg env previous_main current_main_dev w = (Normal l, w')
    /\ Permutation l
         [ with_time t1 (pending "main" (Str "aaa1111") (Str "bbb2222") None);
           with_time t2 (pending "dev" Undefined (Str "ccc3333") None);
           with_time t3 (pending "dev" Null (Str "ccc3333") (Some true)) ]
    /\ List.length l = 3.
Proof.
  rewrite getChangedBranches_run.
  do 5 eexists. split; [reflexivity|]. split.
  - apply Array_sort_perm.
  - now rewrite Array_sort_length.
Qed.

(** C2: with an empty previous snapshot and {main: aaa1111} now, the code
    returns two records for main, not one: the first loop's, with no flag
    and an undefined previous identifier, and the second loop's, flagged
    new. *)
Theorem scenario_first_run (cfg : config) (env : environment) (w : world) :
  exists l w' t1 t2,
    getChangedBranches cfg env JsObject.empty current_main w = (Normal l, w')
    /\ Permutation l
         [ with_time t1 (pending "main" Undefined (Str "aaa1111") None);
           with_time t2 (pending "main" Null (Str "aaa1111") (Some true)) ]
    /\ List.length l = 2.
Proof.
  rewrite getChangedBranches_run.
  do 4 eexists. split; [reflexivity|]. split.
  - apply Array_sort_perm.
  - now rewrite Array_sort_length.
Qed.

(** C3: diffing a snapshot against itself yields the empty change list
    (and looks nothing up). *)
Theorem diff_self_empty (cfg : config) (env : environment) (A : JsObject.t) (w : world) :
  snapshot A ->
  getChangedBranches cfg env A A w = (Normal [], w).
Proof.
  intros [Hnd Hne].
  rewrite getChangedBranches_run.
  assert (Hc : candidates A A = []).
  { unfold candidates, updates, additions, JsObject.entries.
    rewrite (filter_none _ A), (filter_none _ (JsObject.keys A)); [reflexivity| |].
    - intros b Hb. apply in_map_iff in Hb. destruct Hb as [[k v] [<- Hkv]].
      unfold unknown. cbn [fst]. rewrite (get_own A k v) by now apply In_own.
      cbn [ToBoolean]. rewrite Forall_forall in Hne.
      now rewrite (truthy_nonempty v (Hne (k, v) Hkv)).
    - intros [k v] Hkv. unfold changed. cbn [fst snd].
      rewrite (get_own A k v) by now apply In_own.
      cbn [strict_eq_string]. now rewrite String.eqb_refl. }
  unfold unsorted. rewrite Hc. simpl. now rewrite after_nil.
Qed.

Lemma diff_self_empty_witness :
  snapshot current_main_dev
  /\ getChangedBranches no_config calm_env current_main_dev current_main_dev (start [])
     = (Normal [], start []).
Proof.
  assert (H : snapshot current_main_dev).
  { split.
    - repeat constructor; simpl; intuition discriminate.
    - repeat constructor; simpl; discriminate. }
  split; [exact H | exact (diff_self_empty no_config calm_env current_main_dev (start []) H)].
Defined.

(** C4: a branch both snapshots hold under different identifiers has a
    record that is not flagged new (the flag is absent, which the report
    reads as false) and that carries the previous and the new identifier,
    two different strings. *)
Theorem updated_branch_reported (cfg : config) (env : environment)
    (oldCommits newCommits : JsObject.t) (w : world) (b h h' : string) :
  JsObject.own oldCommits b = Some h ->
  JsObject.own newCommits b = Some h' ->
  h <> h' ->
  exists l w',
    getChangedBranches cfg env oldCommits newCommits w = (Normal l, w')
    /\ exists r,
         In r l /\ branch r = b /\ isNew r = None /\ is_new r = false
         /\ oldHash r = Str h /\ newHash r = Str h' /\ oldHash r <> newHash r.
Proof.
  intros Hold Hnew Hneq.
  rewrite getChangedBranches_run.
  do 2 eexists. split; [reflexivity|].
  assert (Hc : In (pending b (Str h) (Str h') None) (candidates oldCommits newCommits)).
  { unfold candidates. apply in_or_app. left. unfold updates, JsObject.entries.
    apply in_map_iff. exists (b, h'). unfold update_of, changed. cbn [fst snd].
    rewrite (get_own _ _ _ Hold). split; [reflexivity|].
    apply filter_In. split; [now apply own_In|].
    cbn [fst snd strict_eq_string]. rewrite (get_own _ _ _ Hold).
    apply String.eqb_neq in Hneq. cbn [strict_eq_string]. now rewrite Hneq. }
  destruct (In_stamp env (List.length (trace w)) _ _ Hc) as [t Ht].
  exists (with_time t (pending b (Str h) (Str h') None)).
  split; [apply Array_sort_In; exact Ht|].
  simpl. repeat split. congruence.
Qed.

Lemma updated_branch_reported_witness :
  exists l w',
    getChangedBranches no_config calm_env previous_main current_main_dev (start [])
    = (Normal l, w')
    /\ exists r,
         In r l /\ branch r = "main" /\ isNew r = None /\ is_new r = false
         /\ oldHash r = Str "aaa1111" /\ newHash r = Str "bbb2222"
         /\ oldHash r <> newHash r.
Proof.
  apply (updated_branch_reported no_config calm_env previous_main current_main_dev
           (start []) "main" "aaa1111" "bbb2222").
  - reflexivity.
  - reflexivity.
  - discriminate.
Defined.




(** Sorted, the three come back oldest first. *)
Example latest_first_sorted :
  fst (getChangedBranches no_config latest_first previous_three
         current_three_moved (start []))
  = Normal [ with_time 1000 (pending "beta" (Str "eee5555") (Str "fff6666") None);
             with_time 2000 (pending "dev" (Str "ccc3333") (Str "ddd4444") None);
             with_time 3000 (pending "main" (Str "aaa1111") (Str "bbb2222") None) ].
Proof. reflexivity. Qed.

Lemma candidates_branch (oldCommits newCommits : JsObject.t) (c : ChangeRecord) :
  In c (candidates oldCommits newCommits) -> In (branch c) (JsObject.keys newCommits).
Proof.
  unfold candidates, updates, additions. intros H.
  apply in_app_or in H. destruct H as [H|H]; apply in_map_iff in H.
  - destruct H as [[k v] [<- H]]. apply filter_In in H. destruct H as [H _].
    simpl. change k with (fst (k, v)). now apply in_map.
  - destruct H as [k [<- H]]. apply filter_In in H. now destruct H as [H _].
Qed.

(** C9: every record of the change list names a branch of the current
    snapshot; a branch that only the previous snapshot holds has none. *)
Theorem only_current_branches (cfg : config) (env : environment)
    (oldCommits newCommits : JsObject.t) (w : world) :
  exists l w',
    getChangedBranches cfg env oldCommits newCommits w = (Normal l, w')
    /\ (forall r, In r l -> In (branch r) (JsObject.keys newCommits))
    /\ (forall b, In b (JsObject.keys oldCommits) ->
                  ~ In b (JsObject.keys newCommits) ->
                  forall r, In r l -> branch r <> b).
Proof.
  rewrite getChangedBranches_run.
  do 2 eexists. split; [reflexivity|].
  assert (H : forall r, In r (Array_sort byCommitTime (unsorted env oldCommits newCommits w)) ->
                        In (branch r) (JsObject.keys newCommits)).
  { intros r Hr. apply Array_sort_In in Hr. apply stamp_In in Hr.
    destruct Hr as [c [Hc ->]]. simpl. now apply (candidates_branch oldCommits). }
  split; [exact H|].
  intros b _ Hb r Hr E. apply Hb. rewrite <- E. now apply H.
Qed.

Lemma only_current_branches_witness :
  exists l w',
    getChangedBranches no_config calm_env [("gone", "ddd4444"); ("main", "aaa1111")]
      current_main_dev (start []) = (Normal l, w')
    /\ (forall r, In r l -> In (branch r) ["main"; "dev"])
    /\ (forall r, In r l -> branch r <> "gone").
Proof.
  destruct (only_current_branches no_config calm_env
              [("gone", "ddd4444"); ("main", "aaa1111")] current_main_dev (start []))
    as [l [w' [E [H1 H2]]]].
  exists l, w'. split; [exact E|]. split; [exact H1|].
  apply (H2 "gone").
  - simpl. now left.
  - simpl. intuition discriminate.
Defined.

(** ** A failing lookup *)






(** The scenario of two changed branches, the lookup of the first
    failing: both are reported, main with the time zero. *)
Example lookup_failure_scenario :
  fst (getChangedBranches no_config (failing_at 0) previous_main_dev
         current_both_moved (start []))
  = Normal [ with_time 0 (pending "main" (Str "aaa1111") (Str "bbb2222") None);
             with_time 1000 (pending "dev" (Str "ccc3333") (Str "ddd4444") None) ].
Proof. reflexivity. Qed.

(** ** A run with nothing new *)

Lemma getLatestCommits_run (cfg : config) (env : environment) (w : world) :
  getLatestCommits cfg env w
  = let answer := execSync_outcome env (List.length (trace w)) (listing_command cfg) in
    (match answer with
     | Stdout output => Normal (JsString.trim output)
     | ExecFailed e => Throw e
     end,
     after w [ExecSync (listing_command cfg) answer]).
Proof.
  unfold getLatestCommits, execSync. fold (listing_command cfg).
  unfold try_catch, bind, clock, emit, throw, ret, after. cbv beta zeta.
  destruct (execSync_outcome env _ _); reflexivity.
Qed.

Lemma readLastCommits_file (env : environment) (w : world) (data : string) :
  JsObject.own (disk w) LAST_COMMIT_FILE = Some data ->
  readLastCommits env w = (Normal (JsString.trim data), w).
Proof.
  intros H. unfold readLastCommits, bind, existsSync, readFileSync, ret.
  now rewrite H, H.
Qed.

(** C7: when the persisted text and the fetched listing are the same text
    (the script compares them trimmed), the run ends normally having done
    nothing but the listing: no mirror command, the persisted file as it
    was, no message.  This holds for [sync.js] and for the earlier
    variant. *)
Theorem unchanged_run_short_circuits (cfg : config) (env : environment)
    (toLocaleString : Date -> string) (toISOString : Z -> string)
    (JSON_stringify : list (string * string) -> string)
    (files : list (string * string)) (output data : string) :
  execSync_outcome env 0 (listing_command cfg) = Stdout output ->
  JsObject.own files LAST_COMMIT_FILE = Some data ->
  JsString.trim output = JsString.trim data ->
  let final := {| disk := files;
                  trace := [ExecSync (listing_command cfg) (Stdout output)] |} in
  main cfg env toLocaleString (start files) = (Normal tt, final)
  /\ AllBranches.main cfg env toISOString JSON_stringify (start files) = (Normal tt, final)
  /\ forallb (fun ev => negb (beyond_listing cfg ev)) (trace final) = true.
Proof.
  intros Hls Hfile Htrim final.
  assert (Hlast : readLastCommits env final = (Normal (JsString.trim data), final))
    by now apply readLastCommits_file.
  repeat split.
  - unfold main, main_try, try_catch, bind.
    rewrite getLatestCommits_run. unfold start, after; cbn [trace disk List.length app].
    rewrite Hls. fold final. rewrite Hlast, Htrim, String.eqb_refl. reflexivity.
  - unfold AllBranches.main, try_catch, bind.
    rewrite getLatestCommits_run. unfold start, after; cbn [trace disk List.length app].
    rewrite Hls. fold final. rewrite Hlast, Htrim, String.eqb_refl. reflexivity.
  - cbn [trace final forallb beyond_listing]. now rewrite String.eqb_refl.
Qed.

Lemma unchanged_run_short_circuits_witness :
  let files := [(LAST_COMMIT_FILE, listing [("aaa1111", "refs/heads/main")])] in
  let final :=
    {| disk := files;
       trace := [ExecSync (listing_command bot_config)
                   (Stdout (listing [("aaa1111", "refs/heads/main")] +++ nl))] |} in
  main bot_config same_listing_env (fun _ => "") (start files) = (Normal tt, final)
  /\ AllBranches.main bot_config same_listing_env (fun _ => "") (fun _ => "") (start files)
     = (Normal tt, final)
  /\ forallb (fun ev => negb (beyond_listing bot_config ev)) (trace final) = true.
Proof.
  apply (unchanged_run_short_circuits bot_config same_listing_env
           (fun _ => "") (fun _ => "") (fun _ => "")
           [(LAST_COMMIT_FILE, listing [("aaa1111", "refs/heads/main")])]
           (listing [("aaa1111", "refs/heads/main")] +++ nl)
           (listing [("aaa1111", "refs/heads/main")])).
  - reflexivity.
  - reflexivity.
  - vm_compute. reflexivity.
Defined.

(** ** Fatal errors *)

Section Disciplines.

Context {A : Type}.

Lemma silent_careful (m : M A) : silent m -> careful m.
Proof.
  intros H w. destruct (H w) as [added [Ht [Hd [Hx Hn]]]].
  exists added. repeat split; auto. intros command e Hin. now apply Hn in Hin.
Qed.

Lemma silent_commandless (m : M A) : silent m -> commandless m.
Proof.
  intros H w. destruct (H w) as [added [Ht [Hd [Hx Hn]]]].
  exists added. auto.
Qed.

Lemma careful_guarded (m : M A) : careful m -> guarded m.
Proof.
  intros H w. destruct (H w) as [added [Ht [Hd [Hx Hf]]]].
  exists added. repeat split; eauto.
Qed.

Lemma commandless_guarded (m : M A) : commandless m -> guarded m.
Proof.
  intros H w. destruct (H w) as [added [Ht [Hx Hn]]].
  exists added. repeat split; auto; intros; exfalso; eapply Hn; eauto.
Qed.

Lemma silent_ret (a : A) : silent (ret a).
Proof. intros w. exists []. simpl. rewrite app_nil_r. repeat split; auto; discriminate. Qed.

Lemma silent_throw (e : error) : silent (throw e : M A).
Proof. intros w. exists []. simpl. rewrite app_nil_r. repeat split; auto; discriminate. Qed.

Lemma silent_lift (c : completion A) : no_exit c -> silent (lift c).
Proof. intros H w. exists []. simpl. rewrite app_nil_r. repeat split; auto. Qed.

Lemma silent_try_catch (body : M A) (handler : error -> M A) :
  silent body -> (forall e, silent (handler e)) -> silent (try_catch body handler).
Proof.
  intros Hb Hh w. unfold try_catch.
  destruct (Hb w) as [a1 [Ht [Hd [Hx Hn]]]].
  destruct (body w) as [[a|e|code] w1]; simpl in *.
  - exists a1. repeat split; auto.
  - destruct (Hh e w1) as [a2 [Ht2 [Hd2 [Hx2 Hn2]]]].
    exists (a1 ++ a2). rewrite Ht2, Ht, Hd2, Hd, app_assoc. repeat split; auto.
    intros command outcome Hin. apply in_app_or in Hin.
    destruct Hin as [Hin|Hin]; [eapply Hn | eapply Hn2]; eauto.
  - exfalso. now apply (Hx code).
Qed.

Lemma careful_rethrow (body : M A) :
  careful body -> careful (try_catch body (fun error => throw error)).
Proof.
  intros Hb w. unfold try_catch, throw.
  destruct (Hb w) as [a1 [Ht [Hd [Hx Hf]]]].
  destruct (body w) as [[a|e|code] w1]; simpl in *; exists a1; repeat split; auto.
Qed.

End Disciplines.

Section Binds.

Context {A B : Type}.

Lemma silent_bind (m : M A) (k : A -> M B) :
  silent m -> (forall a, silent (k a)) -> silent (bind m k).
Proof.
  intros Hm Hk w. unfold bind.
  destruct (Hm w) as [a1 [Ht [Hd [Hx Hn]]]].
  destruct (m w) as [[a|e|code] w1]; simpl in *.
  - destruct (Hk a w1) as [a2 [Ht2 [Hd2 [Hx2 Hn2]]]].
    exists (a1 ++ a2). rewrite Ht2, Ht, Hd2, Hd, app_assoc. repeat split; auto.
    intros command outcome Hin. apply in_app_or in Hin.
    destruct Hin as [Hin|Hin]; [eapply Hn | eapply Hn2]; eauto.
  - exists a1. repeat split; auto. discriminate.
  - exfalso. now apply (Hx code).
Qed.

Lemma commandless_bind (m : M A) (k : A -> M B) :
  commandless m -> (forall a, commandless (k a)) -> commandless (bind m k).
Proof.
  intros Hm Hk w. unfold bind.
  destruct (Hm w) as [a1 [Ht [Hx Hn]]].
  destruct (m w) as [[a|e|code] w1]; simpl in *.
  - destruct (Hk a w1) as [a2 [Ht2 [Hx2 Hn2]]].
    exists (a1 ++ a2). rewrite Ht2, Ht, app_assoc. repeat split; auto.
    intros command outcome Hin. apply in_app_or in Hin.
    destruct Hin as [Hin|Hin]; [eapply Hn | eapply Hn2]; eauto.
  - exists a1. repeat split; auto. discriminate.
  - exfalso. now apply (Hx code).
Qed.

Lemma careful_bind (m : M A) (k : A -> M B) :
  careful m -> (forall a, careful (k a)) -> careful (bind m k).
Proof.
  intros Hm Hk w. unfold bind.
  destruct (Hm w) as [a1 [Ht [Hd [Hx Hf]]]].
  destruct (m w) as [[a|e|code] w1]; simpl in *.
  - destruct (Hk a w1) as [a2 [Ht2 [Hd2 [Hx2 Hf2]]]].
    exists (a1 ++ a2). rewrite Ht2, Ht, Hd2, Hd, app_assoc. repeat split; auto.
    intros command e Hin. apply in_app_or in Hin. destruct Hin as [Hin|Hin].
    + apply Hf in Hin. discriminate.
    + eapply Hf2; eauto.
  - exists a1. split; [exact Ht|]. split; [exact Hd|]. split; [discriminate|].
    intros command e' Hin. apply Hf in Hin. congruence.
  - exfalso. now apply (Hx code).
Qed.

Lemma guarded_bind (m : M A) (k : A -> M B) :
  careful m -> (forall a, guarded (k a)) -> guarded (bind m k).
Proof.
  intros Hm Hk w. unfold bind.
  destruct (Hm w) as [a1 [Ht [Hd [Hx Hf]]]].
  destruct (m w) as [[a|e|code] w1]; simpl in *.
  - destruct (Hk a w1) as [a2 [Ht2 [Hx2 Hf2]]].
    exists (a1 ++ a2). rewrite Ht2, Ht, app_assoc.
    split; [reflexivity|]. split; [exact Hx2|].
    intros command e Hin. apply in_app_or in Hin. destruct Hin as [Hin|Hin].
    + apply Hf in Hin. discriminate.
    + destruct (Hf2 _ _ Hin) as [Hc Hd2]. split; [exact Hc|]. now rewrite Hd2.
  - exists a1. split; [exact Ht|]. split; [discriminate|].
    intros command e' Hin. split; [apply Hf in Hin; congruence | exact Hd].
  - exfalso. now apply (Hx code).
Qed.

End Binds.

Section ScriptDisciplines.

Variable cfg : config.
Variable env : environment.
Variable toLocaleString : Date -> string.

Lemma silent_clock : silent clock.
Proof. intros w. exists []. simpl. rewrite app_nil_r. repeat split; auto; discriminate. Qed.

Lemma silent_emit (ev : event) : not_a_command ev -> silent (emit ev).
Proof.
  intros H w. exists [ev]. simpl. repeat split; auto; try discriminate.
  intros command outcome [Hin|[]]. now apply (H command outcome).
Qed.

Lemma silent_fetch_date (apiUrl : string) : silent (fetch_date cfg env apiUrl).
Proof.
  unfold fetch_date.
  apply silent_bind; [apply silent_clock|]. intros now.
  apply silent_bind; [apply silent_emit; discriminate|]. intros _.
  destruct (github_api env now apiUrl) as [e|status body].
  - apply silent_throw.
  - destruct (negb (ok status)); [apply silent_throw|].
    destruct body; (apply silent_throw || apply silent_ret).
Qed.

Lemma silent_getRepoLastUpdateTime : silent (getRepoLastUpdateTime cfg env).
Proof.
  apply silent_try_catch; [apply silent_fetch_date|]. intros e.
  apply silent_bind; [apply silent_clock|]. intros now. apply silent_ret.
Qed.

Lemma silent_getChangedBranches (oldCommits newCommits : JsObject.t) :
  silent (getChangedBranches cfg env oldCommits newCommits).
Proof.
  intros w. rewrite getChangedBranches_run. eexists. simpl.
  repeat split; auto; try discriminate.
  intros command outcome Hin. now apply lookups_fetch in Hin; apply (Hin command outcome).
Qed.

Lemma silent_existsSync (path : string) : silent (existsSync env path).
Proof.
  intros w. exists []. unfold existsSync.
  destruct (JsObject.own (disk w) path); simpl; rewrite app_nil_r;
    repeat split; auto; discriminate.
Qed.

Lemma silent_readFileSync (path : string) : silent (readFileSync path).
Proof.
  intros w. exists []. unfold readFileSync.
  destruct (JsObject.own (disk w) path); simpl; rewrite app_nil_r;
    repeat split; auto; discriminate.
Qed.

Lemma silent_readLastCommits : silent (readLastCommits env).
Proof.
  unfold readLastCommits.
  apply silent_bind; [apply silent_existsSync|]. intros [|].
  - apply silent_bind; [apply silent_readFileSync|]. intros data. apply silent_ret.
  - apply silent_ret.
Qed.

Lemma silent_sendTelegramMessage (text : string) :
  silent (sendTelegramMessage cfg env text).
Proof.
  unfold sendTelegramMessage.
  destruct (negb _ || negb _); [apply silent_ret|].
  apply silent_try_catch; [|intros e; apply silent_ret].
  apply silent_bind; [apply silent_clock|]. intros now.
  apply silent_bind; [apply silent_emit; discriminate|]. intros _.
  destruct (telegram_api env now _) as [e|status body].
  - apply silent_throw.
  - destruct (negb (ok status)); [apply silent_throw | apply silent_ret].
Qed.

(** sendTelegramMessage never throws. *)
Lemma sendTelegramMessage_returns (text : string) (w : world) :
  fst (sendTelegramMessage cfg env text w) = Normal tt.
Proof.
  unfold sendTelegramMessage.
  destruct (negb _ || negb _); [reflexivity|].
  unfold try_catch, bind, clock, emit, throw, ret.
  destruct (telegram_api env _ _) as [e|status body]; [reflexivity|].
  destruct (negb (ok status)); reflexivity.
Qed.

Lemma careful_execSync (command : string) : careful (execSync env command).
Proof.
  intros w. unfold execSync, bind, clock, emit, throw, ret. cbv beta zeta.
  exists [ExecSync command (execSync_outcome env (List.length (trace w)) command)].
  destruct (execSync_outcome env _ command) as [output|e] eqn:E; simpl;
    repeat split; auto; try discriminate.
  - intros c e [Hin|[]]. discriminate.
  - intros c e' [Hin|[]]. congruence.
Qed.

Lemma careful_getLatestCommits : careful (getLatestCommits cfg env).
Proof.
  unfold getLatestCommits. apply careful_rethrow.
  apply careful_bind; [apply careful_execSync|]. intros output.
  apply silent_careful, silent_ret.
Qed.

Lemma careful_syncRepo : careful (syncRepo cfg env).
Proof.
  unfold syncRepo. apply careful_rethrow.
  apply careful_bind; [apply silent_careful, silent_existsSync|]. intros present.
  apply careful_bind.
  - destruct present.
    + apply careful_bind; [apply careful_execSync|]. intros _.
      apply silent_careful, silent_ret.
    + apply silent_careful, silent_ret.
  - intros _. apply careful_bind; [apply careful_execSync|]. intros _.
    apply silent_careful, silent_ret.
Qed.

Lemma commandless_writeFileSync (path data : string) :
  commandless (writeFileSync env path data).
Proof.
  intros w. unfold writeFileSync.
  destruct (JsObject.own (disk w) path) as [held|];
    [|destruct (directory_exists env (List.length (trace w)) path)].
  - exists [WriteFileSync path data]. simpl.
    repeat split; auto; try discriminate.
    intros command outcome [Hin|[]]. discriminate.
  - exists []. simpl. rewrite app_nil_r.
    repeat split; auto; discriminate.
  - exists [WriteFileSync path data]. simpl.
    repeat split; auto; try discriminate.
    intros command outcome [Hin|[]]. discriminate.
Qed.

Lemma forEach_lines_no_exit (lines : list string) :
  forall commits, no_exit (forEach_lines lines commits).
Proof.
  induction lines as [|line rest IH]; intros commits; simpl; [discriminate|].
  unfold parseLine.
  destruct (JsString.split JsString.tab line) as [|hash [|ref more]];
    try discriminate.
  apply IH.
Qed.

Lemma parseCommitsData_no_exit (commitsText : string) :
  no_exit (parseCommitsData commitsText).
Proof. apply forEach_lines_no_exit. Qed.

Lemma render_record_no_exit (text : string) (r : ChangeRecord) :
  no_exit (render_record toLocaleString text r).
Proof.
  unfold render_record, substring_0_7.
  destruct (ToBoolean (oldHash r)), (oldHash r), (newHash r); discriminate.
Qed.

Lemma render_records_no_exit (l : list ChangeRecord) :
  forall text, no_exit (render_records toLocaleString text l).
Proof.
  induction l as [|r l IH]; intros text; simpl; [discriminate|].
  pose proof (render_record_no_exit text r) as H.
  destruct (render_record toLocaleString text r) as [text'|e|code].
  - apply IH.
  - discriminate.
  - exfalso. now apply (H code).
Qed.

Lemma render_no_exit (l : list ChangeRecord) : no_exit (render toLocaleString l).
Proof.
  unfold render. destruct (0 <? List.length l)%nat; [|discriminate].
  apply render_records_no_exit.
Qed.

Lemma guarded_main_try : guarded (main_try cfg env toLocaleString).
Proof.
  unfold main_try.
  apply guarded_bind; [apply careful_getLatestCommits|]. intros latestText.
  apply guarded_bind; [apply silent_careful, silent_readLastCommits|]. intros lastText.
  destruct (negb (String.eqb latestText lastText));
    [|apply careful_guarded, silent_careful, silent_ret].
  apply guarded_bind.
  { apply silent_careful. destruct (JsString.truthy lastText);
      [apply silent_lift, parseCommitsData_no_exit | apply silent_ret]. }
  intros oldCommits.
  apply guarded_bind;
    [apply silent_careful, silent_lift, parseCommitsData_no_exit|].
  intros newCommits.
  apply guarded_bind; [apply silent_careful, silent_getChangedBranches|].
  intros changedBranches.
  apply guarded_bind; [apply silent_careful, silent_getRepoLastUpdateTime|].
  intros repoUpdateTime.
  apply guarded_bind; [apply careful_syncRepo|]. intros _.
  apply commandless_guarded.
  apply commandless_bind; [apply commandless_writeFileSync|]. intros _.
  apply commandless_bind;
    [apply silent_commandless, silent_lift, render_no_exit|].
  intros text. apply silent_commandless, silent_sendTelegramMessage.
Qed.

End ScriptDisciplines.

Lemma sendTelegramMessage_configured (cfg : config) (env : environment)
    (text : string) (w : world) :
  set_and_nonempty (TELEGRAM_BOT_TOKEN cfg) = true ->
  set_and_nonempty (TELEGRAM_CHAT_ID cfg) = true ->
  snd (sendTelegramMessage cfg env text w) = after w [posted cfg env (trace w) text].
Proof.
  intros Ht Hc. unfold sendTelegramMessage. rewrite Ht, Hc. cbn [negb orb].
  fold (sendMessage_url cfg).
  unfold try_catch, bind, clock, emit, throw, ret, after, posted. cbv beta zeta.
  destruct (telegram_api env _ _) as [e|status body]; [reflexivity|].
  destruct (negb (ok status)); reflexivity.
Qed.

(** C8: a run of [sync.js] ends normally or with exit status 1.  When a
    command it ran has failed (the remote listing, or the removal and the
    clone that make the mirror) the run ends with exit status 1, its last
    step is the call of sendTelegramMessage on the failure text, which
    holds the message of the error, and the files are as they were at the
    start, the persisted listing among them; with both Telegram settings
    present that call posts the text. *)
Theorem fatal_command_failure (cfg : config) (env : environment)
    (toLocaleString : Date -> string) (files : list (string * string))
    (c : completion unit) (w' : world) :
  main cfg env toLocaleString (start files) = (c, w') ->
  (c = Normal tt \/ c = Exit 1%Z)
  /\ forall command e,
       In (ExecSync command (ExecFailed e)) (trace w') ->
       c = Exit 1%Z
       /\ disk w' = files
       /\ exists w1,
            disk w1 = files
            /\ sendTelegramMessage cfg env ("❌ 同步失败: " +++ message e) w1
               = (Normal tt, w')
            /\ (set_and_nonempty (TELEGRAM_BOT_TOKEN cfg) = true ->
                set_and_nonempty (TELEGRAM_CHAT_ID cfg) = true ->
                trace w'
                = trace w1 ++ [posted cfg env (trace w1)
                                 ("❌ 同步失败: " +++ message e)]).
Proof.
  unfold main, try_catch.
  destruct (guarded_main_try cfg env toLocaleString (start files))
    as [added [Ht [Hx Hf]]].
  destruct (main_try cfg env toLocaleString (start files)) as [[[]|e0|code] w1];
    cbn [fst snd start trace disk app] in *.
  - intros [= <- <-]. split; [now left|].
    intros command e Hin. rewrite Ht in Hin.
    destruct (Hf _ _ Hin) as [Hc _]. discriminate.
  - unfold bind, process_exit.
    pose proof (sendTelegramMessage_returns cfg env (failure_text e0) w1) as Hret.
    destruct (silent_sendTelegramMessage cfg env (failure_text e0) w1)
      as [sent [Hts [Hds [_ Hns]]]].
    destruct (sendTelegramMessage cfg env (failure_text e0) w1) as [c2 w2] eqn:Es.
    cbn [fst snd] in *. subst c2.
    intros [= <- <-]. split; [now right|].
    intros command e Hin. rewrite Hts, Ht in Hin.
    apply in_app_or in Hin. destruct Hin as [Hin|Hin]; [|now apply Hns in Hin].
    destruct (Hf _ _ Hin) as [[= ->] Hd1].
    split; [reflexivity|]. split; [congruence|].
    exists w1. split; [exact Hd1|]. split; [exact Es|].
    intros Htok Hchat.
    pose proof (sendTelegramMessage_configured cfg env (failure_text e) w1 Htok Hchat)
      as Hsnd.
    rewrite Es in Hsnd. cbn [snd] in Hsnd. now rewrite Hsnd.
  - exfalso. now apply (Hx code).
Qed.

Lemma fatal_command_failure_witness :
  let files := [(LAST_COMMIT_FILE, listing [("aaa1111", "refs/heads/main")])] in
  let run := main bot_config unreachable_remote (fun _ => "") (start files) in
  fst run = Exit 1%Z
  /\ disk (snd run) = files
  /\ exists w1,
       disk w1 = files
       /\ sendTelegramMessage bot_config unreachable_remote
            ("❌ 同步失败: " +++ message listing_error) w1 = (Normal tt, snd run)
       /\ (set_and_nonempty (TELEGRAM_BOT_TOKEN bot_config) = true ->
           set_and_nonempty (TELEGRAM_CHAT_ID bot_config) = true ->
           trace (snd run)
           = trace w1 ++ [posted bot_config unreachable_remote (trace w1)
                            ("❌ 同步失败: " +++ message listing_error)]).
Proof.
  intros files run.
  destruct (fatal_command_failure bot_config unreachable_remote (fun _ => "") files
              (fst run) (snd run) (surjective_pairing run)) as [_ H].
  apply (H (listing_command bot_config) listing_error).
  vm_compute. left. reflexivity.
Defined.

Example clone_failure_scenario :
  let files := [(LAST_COMMIT_FILE, listing [("aaa1111", "refs/heads/main")])] in
  let run := main bot_config clone_fails (fun _ => "") (start files) in
  fst run = Exit 1%Z
  /\ disk (snd run) = files
  /\ last (trace (snd run)) (MkdirSync "")
     = SendMessage "https://api.telegram.org/bot123:abc/sendMessage" "42"
         ("❌ 同步失败: " +++ "Command failed: git clone") "HTML" (Response 200 tt).
Proof. vm_compute. repeat split. Qed.

(** * Further properties *)

(** ** parseCommitsData, line by line *)

Lemma parseCommitsData_returns_witness :
  exists commits,
    parseCommitsData (listing [("aaa1111", "refs/heads/main"); ("bbb2222", "refs/heads/main")])
    = Normal commits
    /\ NoDup (JsObject.keys commits)
    /\ JsObject.own commits "__proto__" = None
    /\ JsObject.own commits "main" = Some "bbb2222".
Proof.
  destruct (parseCommitsData_returns
              (listing [("aaa1111", "refs/heads/main"); ("bbb2222", "refs/heads/main")]))
    as [commits [E [Hnd [Hp Hb]]]].
  - intros line Hl _. simpl in Hl. destruct Hl as [<-|[<-|[]]]; reflexivity.
  - exists commits. repeat split; auto.
    rewrite (Hb "main") by discriminate. reflexivity.
Defined.

Lemma parseCommitsData_throws_witness :
  parseCommitsData (listing [("aaa1111", "refs/heads/main")] +++ nl +++ "bbb2222 refs/heads/dev")
  = Throw (TypeError_undefined "replace").
Proof.
  apply (parseCommitsData_throws _ "bbb2222 refs/heads/dev").
  - simpl. right. left. reflexivity.
  - reflexivity.
  - reflexivity.
Defined.

Lemma split_app (sep : ascii) (a b : string) :
  JsString.split sep (a +++ String sep b)
  = JsString.split sep a ++ JsString.split sep b.
Proof.
  induction a as [|c a IH]; simpl.
  - now rewrite Ascii.eqb_refl.
  - destruct (Ascii.eqb c sep); [now rewrite IH|].
    rewrite IH. destruct (split_nonempty sep a) as [w [ws ->]]. reflexivity.
Qed.

Lemma append_assoc (a b c : string) : (a +++ b) +++ c = a +++ b +++ c.
Proof. induction a as [|x a IH]; simpl; [reflexivity | now rewrite IH]. Qed.

(** X3: a blank line (empty or white space only) between two parts of a
    listing changes nothing: parseCommitsData gives the same completion
    with it as without it. *)
Theorem blank_line_ignored (a blank b : string) :
  nonblank blank = false ->
  contains JsString.lf blank = false ->
  parseCommitsData (with_blank_line a blank b)
  = parseCommitsData (without_blank_line a b).
Proof.
  intros Hblank Hline.
  unfold parseCommitsData, with_blank_line, without_blank_line, nl.
  change (String JsString.lf EmptyString +++ blank
          +++ String JsString.lf EmptyString +++ b)
    with (String JsString.lf (blank +++ String JsString.lf b)).
  change (String JsString.lf EmptyString +++ b) with (String JsString.lf b).
  rewrite !split_app, (split_without _ _ Hline).
  rewrite !filter_app. cbn [filter]. now rewrite Hblank.
Qed.

Lemma blank_line_ignored_witness :
  parseCommitsData
    (with_blank_line (listing [("aaa1111", "refs/heads/main")])
       (JsString.bytes [32; 9; 13])
       (listing [("ccc3333", "refs/heads/dev")]))
  = parseCommitsData
      (without_blank_line (listing [("aaa1111", "refs/heads/main")])
         (listing [("ccc3333", "refs/heads/dev")])).
Proof.
  apply blank_line_ignored; reflexivity.
Defined.

(** ** More on the change list *)


Lemma lookups_In (cfg : config) (env : environment) (l : list ChangeRecord) (ev : event) :
  forall n, In ev (lookups cfg env n l) ->
            exists c m, In c l /\ ev = lookup_event cfg env m c.
Proof.
  induction l as [|c l IH]; intros n; simpl; [tauto|].
  intros [<-|H].
  - exists c, n. split; [now left | reflexivity].
  - destruct (IH _ H) as [c' [m [Hc E]]]. exists c', m. split; [now right | exact E].
Qed.


Lemma candidates_shape (oldCommits newCommits : JsObject.t) (c : ChangeRecord) :
  In c (candidates oldCommits newCommits) ->
  url c = tree_url (branch c)
  /\ ((isNew c = None
       /\ oldHash c = JsObject.get oldCommits (branch c)
       /\ exists h, In (branch c, h) newCommits
                    /\ newHash c = Str h
                    /\ strict_eq_string (oldHash c) h = false)
      \/ (isNew c = Some true
          /\ oldHash c = Null
          /\ In (branch c) (JsObject.keys newCommits)
          /\ newHash c = JsObject.get newCommits (branch c)
          /\ ToBoolean (JsObject.get oldCommits (branch c)) = false)).
Proof.
  unfold candidates, updates, additions, JsObject.entries. intros H.
  apply in_app_or in H. destruct H as [H|H]; apply in_map_iff in H.
  - destruct H as [[k v] [<- H]]. apply filter_In in H. destruct H as [Hin Hch].
    split; [reflexivity|]. left. cbn. repeat split.
    exists v. repeat split; [exact Hin|].
    unfold changed in Hch. cbn in Hch. now apply negb_true_iff in Hch.
  - destruct H as [k [<- H]]. apply filter_In in H. destruct H as [Hin Hun].
    split; [reflexivity|]. right. cbn. repeat split; [exact Hin|].
    unfold unknown in Hun. now apply negb_true_iff in Hun.
Qed.

(** X5: every record getChangedBranches returns has the tree page of its
    branch for url and one of two shapes.  Either it has no isNew
    property, its oldHash is what the previous snapshot answers for the
    branch, and its newHash is the hash of an entry of the new snapshot,
    not strictly equal to oldHash; or it is flagged isNew, its oldHash is
    null, its newHash is what the new snapshot holds for that key, and the
    previous snapshot's answer for the branch is falsy. *)
Theorem record_shapes (cfg : config) (env : environment)
    (oldCommits newCommits : JsObject.t) (w : world) :
  exists l w',
    getChangedBranches cfg env oldCommits newCommits w = (Normal l, w')
    /\ forall r, In r l ->
         url r = tree_url (branch r)
         /\ ((isNew r = None
              /\ oldHash r = JsObject.get oldCommits (branch r)
              /\ exists h, In (branch r, h) newCommits
                           /\ newHash r = Str h
                           /\ strict_eq_string (oldHash r) h = false)
             \/ (isNew r = Some true
                 /\ oldHash r = Null
                 /\ In (branch r) (JsObject.keys newCommits)
                 /\ newHash r = JsObject.get newCommits (branch r)
                 /\ ToBoolean (JsObject.get oldCommits (branch r)) = false)).
Proof.
  rewrite getChangedBranches_run.
  do 2 eexists. split; [reflexivity|].
  intros r Hr. apply Array_sort_In in Hr. apply stamp_In in Hr.
  destruct Hr as [c [Hc ->]].
  exact (candidates_shape oldCommits newCommits c Hc).
Qed.

Lemma record_shapes_witness :
  exists l w',
    getChangedBranches no_config calm_env previous_main current_both_moved (start [])
    = (Normal l, w')
    /\ let r := with_time 1000 (pending "dev" Null (Str "ddd4444") (Some true)) in
       url r = tree_url (branch r)
       /\ ((isNew r = None
            /\ oldHash r = JsObject.get previous_main (branch r)
            /\ exists h, In (branch r, h) current_both_moved
                         /\ newHash r = Str h
                         /\ strict_eq_string (oldHash r) h = false)
           \/ (isNew r = Some true
               /\ oldHash r = Null
               /\ In (branch r) (JsObject.keys current_both_moved)
               /\ newHash r = JsObject.get current_both_moved (branch r)
               /\ ToBoolean (JsObject.get previous_main (branch r)) = false)).
Proof.
  destruct (record_shapes no_config calm_env previous_main current_both_moved (start []))
    as [l [w' [E H]]].
  exists l, w'. split; [exact E|].
  apply H. rewrite getChangedBranches_run in E. injection E as El _.
  rewrite <- El. right. right. left. reflexivity.
Defined.

(** X6: a branch that both snapshots hold under the same non-empty hash has
    no record in the change list. *)
Theorem unmoved_branch_not_reported (cfg : config) (env : environment)
    (oldCommits newCommits : JsObject.t) (w : world) (b h : string) :
  NoDup (JsObject.keys newCommits) ->
  JsObject.own oldCommits b = Some h ->
  JsObject.own newCommits b = Some h ->
  h <> "" ->
  exists l w',
    getChangedBranches cfg env oldCommits newCommits w = (Normal l, w')
    /\ forall r, In r l -> branch r <> b.
Proof.
  intros Hnd Hold Hnew Hne.
  rewrite getChangedBranches_run.
  do 2 eexists. split; [reflexivity|].
  intros r Hr Hb. apply Array_sort_In in Hr. apply stamp_In in Hr.
  destruct Hr as [c [Hc E]]. rewrite E in Hb. cbn [branch with_time] in Hb.
  destruct (candidates_shape _ _ _ Hc) as [_ [[_ [Ho [v [Hin [_ Hs]]]]]|[_ [_ [_ [_ Hf]]]]]].
  - rewrite Hb in *. rewrite Ho, (get_own _ _ _ Hold) in Hs.
    rewrite (In_own _ _ _ Hnd Hin) in Hnew. injection Hnew as ->.
    cbn in Hs. now rewrite String.eqb_refl in Hs.
  - rewrite Hb, (get_own _ _ _ Hold) in Hf. cbn in Hf.
    now rewrite (truthy_nonempty h Hne) in Hf.
Qed.

Lemma unmoved_branch_not_reported_witness :
  exists l w',
    getChangedBranches no_config calm_env previous_main_dev current_main_dev (start [])
    = (Normal l, w')
    /\ forall r, In r l -> branch r <> "dev".
Proof.
  apply (unmoved_branch_not_reported no_config calm_env previous_main_dev
           current_main_dev (start []) "dev" "ccc3333").
  - repeat constructor; simpl; intuition discriminate.
  - reflexivity.
  - reflexivity.
  - discriminate.
Defined.

(** X7: a branch of the new snapshot for which the previous snapshot
    answers nothing truthy (the branch is new) has a record flagged isNew,
    with a null oldHash and the branch's new hash. *)
Theorem new_branch_flagged (cfg : config) (env : environment)
    (oldCommits newCommits : JsObject.t) (w : world) (b h : string) :
  ToBoolean (JsObject.get oldCommits b) = false ->
  JsObject.own newCommits b = Some h ->
  exists l w',
    getChangedBranches cfg env oldCommits newCommits w = (Normal l, w')
    /\ exists r,
         In r l /\ branch r = b /\ isNew r = Some true /\ is_new r = true
         /\ oldHash r = Null /\ newHash r = Str h.
Proof.
  intros Hold Hnew.
  rewrite getChangedBranches_run.
  do 2 eexists. split; [reflexivity|].
  assert (Hc : In (pending b Null (Str h) (Some true)) (candidates oldCommits newCommits)).
  { unfold candidates. apply in_or_app. right. unfold additions.
    apply in_map_iff. exists b. unfold addition_of.
    rewrite (get_own _ _ _ Hnew). split; [reflexivity|].
    apply filter_In. split.
    - apply own_In in Hnew. change b with (fst (b, h)). now apply in_map.
    - unfold unknown. now rewrite Hold. }
  destruct (In_stamp env (List.length (trace w)) _ _ Hc) as [t Ht].
  exists (with_time t (pending b Null (Str h) (Some true))).
  split; [apply Array_sort_In; exact Ht|].
  repeat split.
Qed.

Lemma new_branch_flagged_witness :
  exists l w',
    getChangedBranches no_config calm_env previous_main current_main_dev (start [])
    = (Normal l, w')
    /\ exists r,
         In r l /\ branch r = "dev" /\ isNew r = Some true /\ is_new r = true
         /\ oldHash r = Null /\ newHash r = Str "ccc3333".
Proof.
  apply (new_branch_flagged no_config calm_env previous_main current_main_dev
           (start []) "dev" "ccc3333"); reflexivity.
Defined.

(** ** The lookups and the notification on their own *)

(** X8: getRepoLastUpdateTime never throws and makes one request, of the
    repository.  When the lookup throws (the request is rejected, the
    status is not a 2xx one, the body does not parse, or the body is null)
    it returns the current time.  Otherwise it returns the Date made of
    what the body holds under pushed_at: an Invalid Date, not the current
    time, when the body holds no date there. *)
Theorem repo_time_falls_back (cfg : config) (env : environment) (w : world) :
  let n := List.length (trace w) in
  let answer := github_api env n repo_url in
  getRepoLastUpdateTime cfg env w
  = (Normal (if lookup_failed answer then TimeValue (Date_now env (S n))
             else resolved answer),
     after w [Fetch repo_url (api_headers cfg) answer])
  /\ (forall status,
        answer = Response status (DateField InvalidDate) -> ok status = true ->
        fst (getRepoLastUpdateTime cfg env w) = Normal InvalidDate).
Proof.
  cbv zeta.
  assert (Hrun : getRepoLastUpdateTime cfg env w
                 = (Normal (if lookup_failed (github_api env (List.length (trace w)) repo_url)
                            then TimeValue (Date_now env (S (List.length (trace w))))
                            else resolved (github_api env (List.length (trace w)) repo_url)),
                    after w [Fetch repo_url (api_headers cfg)
                               (github_api env (List.length (trace w)) repo_url)])).
  { unfold getRepoLastUpdateTime, try_catch, fetch_date, bind, clock, emit,
      throw, ret, after.
    fold repo_url. cbv beta zeta.
    destruct (github_api env (List.length (trace w)) repo_url) as [e|status body];
      cbn [lookup_failed resolved trace disk];
      [now rewrite last_length|].
    destruct body; cbn [lookup_failed resolved]; destruct (ok status);
      cbn [negb trace disk]; rewrite ?last_length; reflexivity. }
  split; [exact Hrun|].
  intros status Hanswer Hok. rewrite Hrun, Hanswer.
  cbn [fst lookup_failed resolved]. now rewrite Hok.
Qed.

Lemma repo_time_falls_back_witness :
  fst (getRepoLastUpdateTime no_config (dateless_at 0) (start [])) = Normal InvalidDate.
Proof.
  apply (proj2 (repo_time_falls_back no_config (dateless_at 0) (start [])) 200%Z);
    reflexivity.
Defined.

(** X9: sendTelegramMessage never throws.  With the bot token or the chat
    id unset or empty it does nothing at all; otherwise it posts the text
    once, as HTML, to the configured chat, and whatever the answer (request
    rejected, error status) it returns normally with nothing else done. *)
Theorem notification_never_escalates (cfg : config) (env : environment)
    (text : string) (w : world) :
  sendTelegramMessage cfg env text w
  = (Normal tt,
     if configured cfg then after w [posted cfg env (trace w) text] else w).
Proof.
  unfold sendTelegramMessage, configured.
  destruct (set_and_nonempty (TELEGRAM_BOT_TOKEN cfg));
    destruct (set_and_nonempty (TELEGRAM_CHAT_ID cfg)); cbn [negb orb andb];
    try reflexivity.
  fold (sendMessage_url cfg).
  unfold try_catch, bind, clock, emit, throw, ret, after, posted. cbv beta zeta.
  destruct (telegram_api env _ _) as [e|status body]; [reflexivity|].
  destruct (negb (ok status)); reflexivity.
Qed.

(** ** The persisted listing *)

Lemma own_write (path data : string) (d : list (string * string)) (p : string) :
  JsObject.own (write path data d) p
  = if String.eqb path p then Some data else JsObject.own d p.
Proof.
  induction d as [|[q old] d IH]; simpl.
  - reflexivity.
  - destruct (String.eqb q path) eqn:E; simpl.
    + apply String.eqb_eq in E; subst q.
      now destruct (String.eqb path p).
    + rewrite IH. destruct (String.eqb q p) eqn:E'; [|reflexivity].
      apply String.eqb_eq in E'; subst q. now rewrite String.eqb_sym, E.
Qed.

(** A write goes through, or it is refused and nothing has changed. *)
Lemma writeFileSync_cases (env : environment) (path data : string) (w : world)
    (c : completion unit) (w' : world) :
  writeFileSync env path data w = (c, w') ->
  (c = Normal tt
   /\ w' = {| disk := write path data (disk w);
              trace := trace w ++ [WriteFileSync path data] |})
  \/ (exists e, c = Throw e /\ w' = w
                /\ JsObject.own (disk w) path = None
                /\ directory_exists env (List.length (trace w)) path = true).
Proof.
  unfold writeFileSync.
  destruct (JsObject.own (disk w) path) as [held|];
    [|destruct (directory_exists env (List.length (trace w)) path)];
    intros [= <- <-]; eauto 6.
Qed.

(** ** Trimming twice *)

Lemma append_empty (s : string) : s +++ "" = s.
Proof. induction s as [|c s IH]; simpl; [reflexivity | now rewrite IH]. Qed.

Lemma rev_acc_append (s acc : string) :
  JsString.rev_acc acc s = JsString.rev s +++ acc.
Proof.
  unfold JsString.rev. revert acc.
  induction s as [|c s IH]; intros acc; simpl; [reflexivity|].
  rewrite (IH (String c acc)), (IH (String c "")), append_assoc. reflexivity.
Qed.

Lemma rev_append (a b : string) :
  JsString.rev (a +++ b) = JsString.rev b +++ JsString.rev a.
Proof.
  induction a as [|c a IH]; simpl.
  - now rewrite append_empty.
  - unfold JsString.rev at 1 3. simpl.
    rewrite !rev_acc_append, IH, append_assoc. reflexivity.
Qed.

Lemma rev_involutive (s : string) : JsString.rev (JsString.rev s) = s.
Proof.
  induction s as [|c s IH]; [reflexivity|].
  unfold JsString.rev at 2. simpl. rewrite rev_acc_append, rev_append, IH.
  reflexivity.
Qed.

Lemma strip_spec (p s r : string) : JsString.strip p s = Some r -> s = p +++ r.
Proof.
  revert s; induction p as [|a p IH]; intros s; simpl.
  - now intros [= ->].
  - destruct s as [|b s]; [discriminate|].
    destruct (Ascii.eqb a b) eqn:E; [|discriminate].
    apply Ascii.eqb_eq in E; subst b. intros H. now rewrite (IH s H).
Qed.

Lemma strip_append (p s r x : string) :
  JsString.strip p s = Some r -> JsString.strip p (s +++ x) = Some (r +++ x).
Proof.
  revert s; induction p as [|a p IH]; intros s; simpl.
  - now intros [= ->].
  - destruct s as [|b s]; [discriminate|]. simpl.
    destruct (Ascii.eqb a b); [apply IH | discriminate].
Qed.

Lemma strip_any_spec (ps : list string) (s r : string) :
  JsString.strip_any ps s = Some r -> exists p, s = p +++ r.
Proof.
  induction ps as [|p ps IH]; simpl; [discriminate|].
  destruct (JsString.strip p s) as [r'|] eqn:E.
  - intros [= ->]. exists p. now apply strip_spec.
  - exact IH.
Qed.

(** A string that starts with one of the patterns still does when it is
    extended. *)
Lemma strip_any_append (ps : list string) (s x : string) :
  JsString.strip_any ps (s +++ x) = None -> JsString.strip_any ps s = None.
Proof.
  induction ps as [|p ps IH]; simpl; [reflexivity|].
  destruct (JsString.strip p s) as [r|] eqn:E.
  - now rewrite (strip_append _ _ _ x E).
  - destruct (JsString.strip p (s +++ x)); [discriminate | exact IH].
Qed.

Lemma strip_all_suffix (ps : list string) (fuel : nat) :
  forall s, exists p, s = p +++ JsString.strip_all fuel ps s.
Proof.
  induction fuel as [|n IH]; intros s; simpl.
  - now exists "".
  - destruct (JsString.strip_any ps s) as [r|] eqn:E; [|now exists ""].
    destruct (strip_any_spec _ _ _ E) as [p ->].
    destruct (IH r) as [q Hq]. exists (p +++ q).
    now rewrite append_assoc, <- Hq.
Qed.

Lemma strip_all_fixed (ps : list string) (fuel : nat) (s : string) :
  JsString.strip_any ps s = None -> JsString.strip_all fuel ps s = s.
Proof. destruct fuel; simpl; [reflexivity | now intros ->]. Qed.

Lemma trim_fixed (t : string) :
  JsString.strip_any JsString.WhiteSpace t = None ->
  JsString.strip_any (map JsString.rev JsString.WhiteSpace) (JsString.rev t) = None ->
  JsString.trim t = t.
Proof.
  intros Hlead Htrail. unfold JsString.trim, JsString.trimStart.
  rewrite (strip_all_fixed _ _ _ Hlead). unfold JsString.trimEnd.
  rewrite (strip_all_fixed _ _ _ Htrail). apply rev_involutive.
Qed.

(** Trimming a trimmed text changes nothing. *)
Lemma trim_idempotent (s : string) :
  JsString.trim (JsString.trim s) = JsString.trim s.
Proof.
  pose proof (trimStart_done s) as Hstart.
  pose proof (trimEnd_done (JsString.trimStart s)) as Hend.
  unfold JsString.trim at 2 3. unfold JsString.trimEnd.
  set (s1 := JsString.trimStart s) in *.
  set (u := JsString.strip_all (String.length s1)
              (map JsString.rev JsString.WhiteSpace) (JsString.rev s1)) in *.
  destruct (strip_all_suffix (map JsString.rev JsString.WhiteSpace)
              (String.length s1) (JsString.rev s1)) as [q Hq].
  fold u in Hq.
  assert (Hs1 : s1 = JsString.rev u +++ JsString.rev q).
  { rewrite <- rev_append, <- Hq. now rewrite rev_involutive. }
  apply trim_fixed.
  - apply (strip_any_append _ _ (JsString.rev q)). now rewrite <- Hs1.
  - now rewrite rev_involutive.
Qed.

(** ** The mirror *)

Lemma execSync_run (env : environment) (command : string) (w : world) :
  execSync env command w
  = let answer := execSync_outcome env (List.length (trace w)) command in
    (match answer with
     | Stdout output => Normal output
     | ExecFailed e => Throw e
     end,
     after w [ExecSync command answer]).
Proof.
  unfold execSync, bind, clock, emit, throw, ret, after. cbv beta zeta.
  destruct (execSync_outcome env _ _); reflexivity.
Qed.

Lemma existsSync_run (env : environment) (path : string) (w : world) :
  existsSync env path w = (Normal (exists_now env w path), w).
Proof.
  unfold existsSync, exists_now. now destruct (JsObject.own (disk w) path).
Qed.

Lemma syncRepo_run (cfg : config) (env : environment) (w : world) :
  syncRepo cfg env w
  = let n := List.length (trace w) in
    if exists_now env w LOCAL_REPO
    then
      let removal := execSync_outcome env n remove_command in
      match removal with
      | ExecFailed e => (Throw e, after w [ExecSync remove_command removal])
      | Stdout _ =>
          let clone := execSync_outcome env (S n) (clone_command cfg) in
          (completion_of clone,
           after w [ExecSync remove_command removal;
                    ExecSync (clone_command cfg) clone])
      end
    else
      let clone := execSync_outcome env n (clone_command cfg) in
      (completion_of clone, after w [ExecSync (clone_command cfg) clone]).
Proof.
  unfold syncRepo. fold (clone_command cfg). fold remove_command.
  unfold try_catch, bind at 1. rewrite existsSync_run. cbv zeta.
  destruct (exists_now env w LOCAL_REPO).
  - unfold bind. rewrite execSync_run. cbv zeta.
    destruct (execSync_outcome env (List.length (trace w)) remove_command) as [o|e];
      [|reflexivity].
    unfold ret. rewrite execSync_run. cbv zeta. rewrite after_after.
    cbn [after trace disk app]. rewrite last_length.
    destruct (execSync_outcome env _ (clone_command cfg)); reflexivity.
  - unfold bind, ret. rewrite execSync_run. cbv zeta.
    destruct (execSync_outcome env _ (clone_command cfg)); reflexivity.
Qed.

(** X11: syncRepo runs its commands in a fixed order.  Take files none of
    which stands at the place of the mirror or below it, so that the
    removal takes none of them away: the files the script keeps are then
    left as they were.  When the directory of the local copy is there it is
    removed first, and the clone is attempted only if the removal
    succeeded; the clone, when it runs, is the last command; the call
    returns normally exactly when the clone succeeded and otherwise throws
    the error of the command that failed. *)
Theorem mirror_steps (cfg : config) (env : environment) (w : world)
    (c : completion unit) (w' : world) :
  mirror_free (disk w) ->
  syncRepo cfg env w = (c, w') ->
  let there := directory_exists env (List.length (trace w)) LOCAL_REPO in
  disk w' = disk w
  /\ exists added,
       trace w' = trace w ++ added
       /\ ((there = false
            /\ exists clone,
                 added = [ExecSync (clone_command cfg) clone]
                 /\ c = completion_of clone)
           \/ (there = true
               /\ exists output clone,
                    added = [ExecSync remove_command (Stdout output);
                             ExecSync (clone_command cfg) clone]
                    /\ c = completion_of clone)
           \/ (there = true
               /\ exists e,
                    added = [ExecSync remove_command (ExecFailed e)]
                    /\ c = Throw e)).
Proof.
  intros Hfree. rewrite syncRepo_run. cbv zeta.
  unfold exists_now. rewrite (Hfree LOCAL_REPO) by reflexivity.
  destruct (directory_exists env (List.length (trace w)) LOCAL_REPO).
  - destruct (execSync_outcome env (List.length (trace w)) remove_command) as [o|e] eqn:E.
    + intros [= <- <-]. split; [reflexivity|]. eexists. split; [reflexivity|].
      right. left. split; [reflexivity|]. eauto.
    + intros [= <- <-]. split; [reflexivity|]. eexists. split; [reflexivity|].
      right. right. split; [reflexivity|]. eauto.
  - intros [= <- <-]. split; [reflexivity|]. eexists. split; [reflexivity|].
    left. split; [reflexivity|]. eauto.
Qed.

Lemma mirror_steps_witness :
  let files := [(LAST_COMMIT_FILE, listing [("aaa1111", "refs/heads/main")])] in
  let run := syncRepo no_config removal_fails (start files) in
  mirror_free files
  /\ disk (snd run) = files
  /\ exists added,
       trace (snd run) = [] ++ added
       /\ ((true = false
            /\ exists clone,
                 added = [ExecSync (clone_command no_config) clone]
                 /\ fst run = completion_of clone)
           \/ (true = true
               /\ exists output clone,
                    added = [ExecSync remove_command (Stdout output);
                             ExecSync (clone_command no_config) clone]
                    /\ fst run = completion_of clone)
           \/ (true = true
               /\ exists e,
                    added = [ExecSync remove_command (ExecFailed e)]
                    /\ fst run = Throw e)).
Proof.
  intros files run.
  assert (Hfree : mirror_free files).
  { intros path Hin. unfold files. cbn [JsObject.own].
    destruct (String.eqb LAST_COMMIT_FILE path) eqn:E; [|reflexivity].
    apply String.eqb_eq in E. subst path. discriminate Hin. }
  split; [exact Hfree|].
  exact (mirror_steps no_config removal_fails (start files) (fst run) (snd run)
           Hfree (surjective_pairing run)).
Defined.

Lemma mirror_cases (cfg : config) (env : environment) (w w' : world) :
  syncRepo cfg env w = (Normal tt, w') ->
  disk w' = disk w
  /\ exists added o,
       trace w' = trace w ++ added
       /\ In (ExecSync (clone_command cfg) (Stdout o)) added.
Proof.
  rewrite syncRepo_run. cbv zeta.
  destruct (exists_now env w LOCAL_REPO).
  - destruct (execSync_outcome env (List.length (trace w)) remove_command) as [o|e];
      [|discriminate].
    destruct (execSync_outcome env _ (clone_command cfg)) as [o'|e] eqn:E;
      [|discriminate].
    intros [= <-]. split; [reflexivity|]. do 2 eexists. split; [reflexivity|].
    right. left. reflexivity.
  - destruct (execSync_outcome env _ (clone_command cfg)) as [o'|e] eqn:E;
      [|discriminate].
    intros [= <-]. split; [reflexivity|]. do 2 eexists. split; [reflexivity|].
    left. reflexivity.
Qed.

(** ** The ends of a run *)

Lemma readLastCommits_world (env : environment) (w : world) :
  snd (readLastCommits env w) = w /\ no_exit (fst (readLastCommits env w)).
Proof.
  unfold readLastCommits, bind. rewrite existsSync_run.
  destruct (exists_now env w LAST_COMMIT_FILE); [|split; [reflexivity | discriminate]].
  unfold readFileSync, ret.
  destruct (JsObject.own (disk w) LAST_COMMIT_FILE); split;
    (reflexivity || discriminate).
Qed.

(** The ways the [try] block of main returns normally: with nothing new,
    or having cloned and then persisted the listing it fetched. *)
Lemma main_try_normal (cfg : config) (env : environment)
    (toLocaleString : Date -> string) (files : list (string * string)) (w' : world) :
  main_try cfg env toLocaleString (start files) = (Normal tt, w') ->
  exists output lastText,
    execSync_outcome env 0 (listing_command cfg) = Stdout output
    /\ let w1 := after (start files) [ExecSync (listing_command cfg) (Stdout output)] in
       readLastCommits env w1 = (Normal lastText, w1)
       /\ ((lastText = JsString.trim output /\ w' = w1)
           \/ (lastText <> JsString.trim output
               /\ disk w' = write LAST_COMMIT_FILE (JsString.trim output) files
               /\ (exists o, In (ExecSync (clone_command cfg) (Stdout o)) (trace w'))
               /\ In (WriteFileSync LAST_COMMIT_FILE (JsString.trim output)) (trace w'))).
Proof.
  unfold main_try, bind at 1. rewrite getLatestCommits_run. cbv zeta.
  change (List.length (trace (start files))) with 0.
  destruct (execSync_outcome env 0 (listing_command cfg)) as [output|e] eqn:Els;
    [|discriminate].
  set (w1 := after (start files) [ExecSync (listing_command cfg) (Stdout output)]).
  unfold bind at 1.
  destruct (readLastCommits_world env w1) as [Hw _].
  destruct (readLastCommits env w1) as [[lastText|e|code] w1'] eqn:Elast;
    cbn [snd] in Hw; subst w1'; try discriminate.
  intros H. exists output, lastText. split; [reflexivity|]. cbv zeta. fold w1.
  split; [exact Elast|].
  destruct (String.eqb (JsString.trim output) lastText) eqn:Eq; cbn [negb] in H.
  - apply String.eqb_eq in Eq. left. unfold ret in H. injection H as <-. now split.
  - apply String.eqb_neq in Eq. right. split; [congruence|].
    unfold bind at 1 in H.
    assert (Hold : exists c, (if JsString.truthy lastText
                              then lift (parseCommitsData lastText)
                              else ret JsObject.empty) w1 = (c, w1)).
    { destruct (JsString.truthy lastText); eexists; reflexivity. }
    destruct Hold as [cold Hold]. rewrite Hold in H.
    destruct cold as [oldCommits|e|code]; try discriminate.
    unfold bind at 1, lift at 1 in H.
    destruct (parseCommitsData (JsString.trim output)) as [newCommits|e|code];
      try discriminate.
    unfold bind at 1 in H. rewrite getChangedBranches_run in H.
    set (w2 := after w1 _) in H.
    unfold bind at 1 in H.
    destruct (silent_getRepoLastUpdateTime cfg env w2) as [a3 [Ht3 [Hd3 _]]].
    destruct (getRepoLastUpdateTime cfg env w2) as [[t|e|code] w3]; try discriminate.
    cbn [snd] in Ht3, Hd3.
    unfold bind at 1 in H.
    destruct (syncRepo cfg env w3) as [[[]|e|code] w4] eqn:Esync; try discriminate.
    destruct (mirror_cases cfg env w3 w4 Esync) as [Hd4 [a4 [o [Ht4 Hin4]]]].
    unfold bind at 1, writeLastCommits in H.
    destruct (writeFileSync env LAST_COMMIT_FILE (JsString.trim output) w4)
      as [cw w5] eqn:Ew.
    destruct (writeFileSync_cases _ _ _ _ _ _ Ew) as [[-> ->]|[e [-> _]]];
      [|discriminate].
    unfold bind at 1, lift at 1 in H.
    destruct (render toLocaleString _) as [text|e|code]; try discriminate.
    destruct (silent_sendTelegramMessage cfg env text
                {| disk := write LAST_COMMIT_FILE (JsString.trim output) (disk w4);
                   trace := trace w4 ++
                            [WriteFileSync LAST_COMMIT_FILE (JsString.trim output)] |})
      as [a5 [Ht5 [Hd5 _]]].
    rewrite H in Ht5, Hd5. cbn [snd trace disk] in Ht5, Hd5.
    rewrite Hd5, Hd4, Hd3. split; [reflexivity|]. split.
    + exists o. rewrite Ht5, Ht4. apply in_or_app. left. apply in_or_app. left.
      apply in_or_app. now right.
    + rewrite Ht5. apply in_or_app. left. apply in_or_app. right. now left.
Qed.

Lemma main_normal (cfg : config) (env : environment)
    (toLocaleString : Date -> string) (w w' : world) :
  main cfg env toLocaleString w = (Normal tt, w') ->
  main_try cfg env toLocaleString w = (Normal tt, w').
Proof.
  unfold main, try_catch.
  destruct (main_try cfg env toLocaleString w) as [[[]|e|code] w1]; try discriminate.
  - trivial.
  - unfold bind, process_exit.
    pose proof (sendTelegramMessage_returns cfg env (failure_text e) w1) as Hret.
    destruct (sendTelegramMessage cfg env (failure_text e) w1) as [c w2].
    cbn [fst] in Hret. subst c. discriminate.
Qed.



Lemma readLastCommits_missing (env : environment) (w : world) :
  JsObject.own (disk w) LAST_COMMIT_FILE = None ->
  readLastCommits env w
  = (if directory_exists env (List.length (trace w)) LAST_COMMIT_FILE
     then Throw {| name := "Error";
                   message := "EISDIR: illegal operation on a directory, read" |}
     else Normal "",
     w).
Proof.
  intros H. unfold readLastCommits, bind. rewrite existsSync_run.
  unfold exists_now. rewrite H.
  destruct (directory_exists env _ _); [|reflexivity].
  unfold readFileSync. now rewrite H.
Qed.

(** X13: after a run of [sync.js] that ended normally, a second run that
    fetches the same listing (the same text once trimmed) finds nothing
    new: it ends normally having run the listing command only, with the
    files as the first run left them.  (last_commit.txt is taken not to be
    a directory.) *)
Theorem second_run_is_quiet (cfg : config) (env env2 : environment)
    (toLocaleString toLocaleString2 : Date -> string)
    (files : list (string * string)) (w' : world) (output output2 : string) :
  main cfg env toLocaleString (start files) = (Normal tt, w') ->
  execSync_outcome env 0 (listing_command cfg) = Stdout output ->
  execSync_outcome env2 0 (listing_command cfg) = Stdout output2 ->
  JsString.trim output2 = JsString.trim output ->
  directory_exists env2 1 LAST_COMMIT_FILE = false ->
  main cfg env2 toLocaleString2 (start (disk w'))
  = (Normal tt,
     {| disk := disk w';
        trace := [ExecSync (listing_command cfg) (Stdout output2)] |}).
Proof.
  intros H Hls Hls2 Htrim Hdir. apply main_normal in H.
  destruct (main_try_normal _ _ _ _ _ H) as [out [lastText [Hout [Hlast Hcases]]]].
  rewrite Hls in Hout. injection Hout as <-. cbv zeta in Hlast.
  set (final := {| disk := disk w';
                   trace := [ExecSync (listing_command cfg) (Stdout output2)] |}).
  assert (Hread : readLastCommits env2 final = (Normal (JsString.trim output), final)).
  { destruct Hcases as [[-> ->]|[_ [Hd _]]].
    - cbn [after start disk trace app] in *.
      destruct (JsObject.own files LAST_COMMIT_FILE) as [data|] eqn:Efile.
      + rewrite (readLastCommits_file env _ data) in Hlast by exact Efile.
        injection Hlast as Hdata. rewrite <- Hdata.
        apply readLastCommits_file. exact Efile.
      + rewrite (readLastCommits_missing env) in Hlast by exact Efile.
        cbn [after start trace disk app List.length] in Hlast.
        destruct (directory_exists env 1 LAST_COMMIT_FILE); [discriminate|].
        injection Hlast as Hempty. rewrite <- Hempty.
        rewrite (readLastCommits_missing env2) by exact Efile.
        cbn [trace final List.length]. now rewrite Hdir.
    - rewrite <- (trim_idempotent output). apply readLastCommits_file.
      cbn [disk final]. now rewrite Hd, own_write, String.eqb_refl. }
  unfold main, main_try, try_catch, bind.
  rewrite getLatestCommits_run. unfold start, after; cbn [trace disk List.length app].
  rewrite Hls2. fold final. rewrite Hread, Htrim, String.eqb_refl. reflexivity.
Qed.

Lemma second_run_is_quiet_witness :
  let first := main bot_config same_listing_env (fun _ => "") (start []) in
  main bot_config same_listing_env (fun _ => "") (start (disk (snd first)))
  = (Normal tt,
     {| disk := disk (snd first);
        trace := [ExecSync (listing_command bot_config)
                    (Stdout (listing [("aaa1111", "refs/heads/main")] +++ nl))] |}).
Proof.
  intros first.
  apply (second_run_is_quiet bot_config same_listing_env same_listing_env
           (fun _ => "") (fun _ => "") [] (snd first)
           (listing [("aaa1111", "refs/heads/main")] +++ nl)).
  - change (first = (Normal tt, snd first)).
    rewrite (surjective_pairing first) at 1. reflexivity.
  - reflexivity.
  - reflexivity.
  - reflexivity.
  - reflexivity.
Defined.

(** ** The report of a diff *)

Lemma keys_own (o : JsObject.t) (k : string) :
  In k (JsObject.keys o) -> exists v, JsObject.own o k = Some v.
Proof.
  intros H. destruct (JsObject.own o k) as [v|] eqn:E; [eauto|].
  apply own_None in E. contradiction.
Qed.

Lemma candidates_renderable (oldCommits newCommits : JsObject.t) (c : ChangeRecord) :
  no_inherited_names oldCommits newCommits ->
  In c (candidates oldCommits newCommits) -> renderable c.
Proof.
  intros Hnames Hc.
  destruct (candidates_shape _ _ _ Hc) as [_ [[_ [Ho [h [Hin [Hn _]]]]]|[_ [Ho [Hin [Hn _]]]]]].
  - split; [|eauto]. intros k. rewrite Ho. apply Hnames.
    change (branch c) with (fst (branch c, h)). now apply in_map.
  - split; [intros k; rewrite Ho; discriminate|].
    destruct (keys_own _ _ Hin) as [v Hv]. exists v.
    now rewrite Hn, (get_own _ _ _ Hv).
Qed.

Lemma render_record_returns (toLocaleString : Date -> string) (text : string)
    (r : ChangeRecord) :
  renderable r -> exists text', render_record toLocaleString text r = Normal text'.
Proof.
  intros [Hold [h Hnew]]. unfold render_record, substring_0_7. rewrite Hnew.
  destruct (oldHash r) as [| |s|k] eqn:E; cbn [ToBoolean].
  - eauto.
  - eauto.
  - destruct (JsString.truthy s); eauto.
  - exfalso. now apply (Hold k).
Qed.

Lemma render_records_returns (toLocaleString : Date -> string) (l : list ChangeRecord) :
  Forall renderable l ->
  forall text, exists text', render_records toLocaleString text l = Normal text'.
Proof.
  induction 1 as [|r l Hr _ IH]; intros text; simpl; [eauto|].
  destruct (render_record_returns toLocaleString text r Hr) as [text' ->].
  apply IH.
Qed.

Lemma render_returns (toLocaleString : Date -> string) (l : list ChangeRecord) :
  Forall renderable l -> exists text, render toLocaleString l = Normal text.
Proof.
  intros Hall. unfold render.
  destruct (0 <? List.length l)%nat; [|eauto].
  apply render_records_returns, Hall.
Qed.

(** X14: the change list of any two snapshots renders: [render] returns a
    message for what getChangedBranches returned, provided no branch of
    the new snapshot is missing from the previous one under the name of a
    member of Object.prototype (for such a branch oldHash is a function,
    and the report's [oldHash.substring] throws). *)
Theorem report_renders (cfg : config) (env : environment)
    (toLocaleString : Date -> string) (oldCommits newCommits : JsObject.t) (w : world) :
  no_inherited_names oldCommits newCommits ->
  exists l w' text,
    getChangedBranches cfg env oldCommits newCommits w = (Normal l, w')
    /\ render toLocaleString l = Normal text.
Proof.
  intros Hnames. rewrite getChangedBranches_run.
  assert (Hall : Forall renderable
                   (Array_sort byCommitTime (unsorted env oldCommits newCommits w))).
  { apply Forall_forall. intros r Hr. apply Array_sort_In in Hr.
    apply stamp_In in Hr. destruct Hr as [c [Hc E]].
    destruct (candidates_renderable _ _ _ Hnames Hc) as [Ho Hn].
    rewrite E. split; [exact Ho | exact Hn]. }
  destruct (render_returns toLocaleString _ Hall) as [text Ht].
  do 3 eexists. split; [reflexivity | exact Ht].
Qed.

Lemma report_renders_witness :
  exists l w' text,
    getChangedBranches no_config calm_env previous_main current_main_dev (start [])
    = (Normal l, w')
    /\ render (fun _ => "") l = Normal text.
Proof.
  apply report_renders.
  intros b k Hb. simpl in Hb.
  destruct Hb as [<-|[<-|[]]]; discriminate.
Defined.

(** A new branch called [constructor]: the previous snapshot answers with
    the inherited function, the branch is not flagged new, and the report
    throws. *)
Example inherited_name_breaks_report :
  let l := fst (getChangedBranches no_config calm_env previous_main
                  [("constructor", "ccc3333")] (start [])) in
  l = Normal [with_time 1000
                (pending "constructor" (Inherited "constructor") (Str "ccc3333") None)]
  /\ render (fun _ => "")
       [with_time 1000
          (pending "constructor" (Inherited "constructor") (Str "ccc3333") None)]
     = Throw (TypeError_not_a_function "oldHash.substring").
Proof. split; reflexivity. Qed.

(** ** The earlier variant: its branches *)

Lemma branch_names_run (lines : list string) :
  AllBranches.branch_names lines
  = if forallb (contains JsString.tab) lines
    then Normal (map ref_name lines)
    else Throw (TypeError_undefined "replace").
Proof.
  induction lines as [|line rest IH]; [reflexivity|].
  cbn [AllBranches.branch_names forallb map]. unfold AllBranches.item, ref_name.
  destruct (contains JsString.tab line) eqn:E.
  - destruct (split_contains _ _ E) as [hash [ref [more ->]]].
    cbn [nth_error andb]. rewrite IH.
    destruct (forallb (contains JsString.tab) rest); reflexivity.
  - rewrite (split_without _ _ E). reflexivity.
Qed.

(** X15: getAllBranches runs the heads listing once.  When it fails the
    error is thrown on.  Otherwise the output is trimmed and split into
    lines, empty lines (and only those) are dropped, and if every line
    left holds a tab the result is the branch name of each line, in order
    and with repetitions; a line without a tab, be it white space only,
    makes it throw. *)
Theorem all_branches_listed (cfg : config) (env : environment) (w : world) :
  let answer := execSync_outcome env (List.length (trace w)) (heads_command cfg) in
  AllBranches.getAllBranches cfg env w
  = (match answer with
     | ExecFailed e => Throw e
     | Stdout output =>
         if forallb (contains JsString.tab) (head_lines output)
         then Normal (map ref_name (head_lines output))
         else Throw (TypeError_undefined "replace")
     end,
     after w [ExecSync (heads_command cfg) answer]).
Proof.
  cbv zeta. unfold AllBranches.getAllBranches. fold (heads_command cfg).
  unfold try_catch, bind. rewrite execSync_run. cbv zeta.
  destruct (execSync_outcome env _ _) as [output|e]; [|reflexivity].
  unfold lift. fold (head_lines output). rewrite branch_names_run.
  destruct (forallb (contains JsString.tab) (head_lines output)); reflexivity.
Qed.

Example heads_of_two :
  fst (AllBranches.getAllBranches no_config two_heads_env (start []))
  = Normal ["main"; "dev"].
Proof. reflexivity. Qed.

Example heads_with_space_line :
  fst (AllBranches.getAllBranches no_config spaced_listing_env (start []))
  = Throw (TypeError_undefined "replace")
  /\ parseCommitsData
       (with_blank_line (listing [("aaa1111", "refs/heads/main")]) " "
          (listing [("ccc3333", "refs/heads/dev")]))
     = Normal [("main", "aaa1111"); ("dev", "ccc3333")].
Proof. split; reflexivity. Qed.

(** ** The earlier variant: what happens to the persisted listing *)

Section KeepsListing.

Context {A B : Type}.

Lemma silent_keeps (m : M A) : silent m -> keeps_listing m.
Proof.
  intros H w. destruct (H w) as [added [_ [Hd [Hx _]]]].
  split; [exact Hx | now rewrite Hd].
Qed.

Lemma careful_keeps (m : M A) : careful m -> keeps_listing m.
Proof.
  intros H w. destruct (H w) as [added [_ [Hd [Hx _]]]].
  split; [exact Hx | now rewrite Hd].
Qed.

Lemma keeps_bind (m : M A) (k : A -> M B) :
  keeps_listing m -> (forall a, keeps_listing (k a)) -> keeps_listing (bind m k).
Proof.
  intros Hm Hk w. unfold bind. destruct (Hm w) as [Hx Hd].
  destruct (m w) as [[a|e|code] w1]; cbn [fst snd] in *.
  - destruct (Hk a w1) as [Hx2 Hd2]. split; [exact Hx2 | now rewrite Hd2].
  - split; [discriminate | exact Hd].
  - exfalso. now apply (Hx code).
Qed.

Lemma keeps_try_catch (body : M A) (handler : error -> M A) :
  keeps_listing body -> (forall e, keeps_listing (handler e)) ->
  keeps_listing (try_catch body handler).
Proof.
  intros Hb Hh w. unfold try_catch. destruct (Hb w) as [Hx Hd].
  destruct (body w) as [[a|e|code] w1]; cbn [fst snd] in *.
  - split; [discriminate | exact Hd].
  - destruct (Hh e w1) as [Hx2 Hd2]. split; [exact Hx2 | now rewrite Hd2].
  - exfalso. now apply (Hx code).
Qed.

Lemma keeps_fails (m : M A) : keeps_listing m -> fails_before_persisting m.
Proof. intros H w. destruct (H w) as [Hx Hd]. split; [exact Hx | now intros]. Qed.

Lemma fails_bind (m : M A) (k : A -> M B) :
  keeps_listing m -> (forall a, fails_before_persisting (k a)) ->
  fails_before_persisting (bind m k).
Proof.
  intros Hm Hk w. unfold bind. destruct (Hm w) as [Hx Hd].
  destruct (m w) as [[a|e|code] w1]; cbn [fst snd] in *.
  - destruct (Hk a w1) as [Hx2 Hd2]. split; [exact Hx2|].
    intros e He. now rewrite (Hd2 e He).
  - split; [discriminate | now intros].
  - exfalso. now apply (Hx code).
Qed.

End KeepsListing.

Lemma keeps_writeFileSync (env : environment) (path data : string) :
  String.eqb path LAST_COMMIT_FILE = false ->
  keeps_listing (writeFileSync env path data).
Proof.
  intros Hp w.
  destruct (writeFileSync env path data w) as [c w'] eqn:E.
  destruct (writeFileSync_cases _ _ _ _ _ _ E) as [[-> ->]|[e [-> [-> _]]]];
    cbn [fst snd disk].
  - split; [discriminate|]. now rewrite own_write, Hp.
  - split; [discriminate | reflexivity].
Qed.

Lemma keeps_emit (ev : event) : keeps_listing (emit ev).
Proof. intros w. split; [discriminate | reflexivity]. Qed.

Section Variant.

Variable cfg : config.
Variable env : environment.
Variable toISOString : Z -> string.
Variable JSON_stringify : list (string * string) -> string.

Lemma keeps_execSync (command : string) : keeps_listing (execSync env command).
Proof. apply careful_keeps, careful_execSync. Qed.

Lemma keeps_existsSync (path : string) : keeps_listing (existsSync env path).
Proof. apply silent_keeps, silent_existsSync. Qed.

Lemma keeps_ret {A : Type} (a : A) : keeps_listing (ret a).
Proof. apply silent_keeps, silent_ret. Qed.

Lemma keeps_new_Date : keeps_listing (AllBranches.new_Date env).
Proof.
  unfold AllBranches.new_Date.
  apply keeps_bind; [apply silent_keeps, silent_clock|]. intros now. apply keeps_ret.
Qed.

Lemma keeps_variant_syncRepo : keeps_listing (AllBranches.syncRepo cfg env).
Proof.
  unfold AllBranches.syncRepo.
  apply keeps_try_catch; [|intros e; apply silent_keeps, silent_throw].
  apply keeps_bind; [apply keeps_existsSync|]. intros present.
  apply keeps_bind.
  - destruct present; [|apply keeps_ret].
    apply keeps_bind; [apply keeps_execSync|]. intros _. apply keeps_ret.
  - intros _. apply keeps_bind; [apply keeps_execSync|]. intros _. apply keeps_ret.
Qed.

Lemma keeps_getAllBranches : keeps_listing (AllBranches.getAllBranches cfg env).
Proof.
  unfold AllBranches.getAllBranches.
  apply keeps_try_catch; [|intros e; apply silent_keeps, silent_throw].
  apply keeps_bind; [apply keeps_execSync|]. intros output.
  apply silent_keeps, silent_lift. rewrite branch_names_run.
  destruct (forallb _ _); discriminate.
Qed.

Lemma keeps_copyBranchFiles (b : string) :
  keeps_listing (AllBranches.copyBranchFiles env toISOString JSON_stringify b).
Proof.
  unfold AllBranches.copyBranchFiles.
  apply keeps_try_catch; [|intros e; apply keeps_ret].
  apply keeps_bind; [apply keeps_existsSync|]. intros present.
  apply keeps_bind.
  - destruct present; [|apply keeps_ret].
    apply keeps_bind; [apply keeps_execSync|]. intros _. apply keeps_ret.
  - intros _. apply keeps_bind; [apply keeps_emit|]. intros _.
    apply keeps_bind; [apply keeps_execSync|]. intros _.
    apply keeps_bind; [apply keeps_new_Date|]. intros lastSync.
    apply keeps_bind; [apply keeps_execSync|]. intros commit.
    apply keeps_writeFileSync. reflexivity.
Qed.

Lemma copyBranchFiles_returns (b : string) (w : world) :
  fst (AllBranches.copyBranchFiles env toISOString JSON_stringify b w) = Normal tt.
Proof.
  destruct (keeps_copyBranchFiles b w) as [Hx _].
  unfold AllBranches.copyBranchFiles, try_catch in *.
  match goal with
  | |- fst (match ?body with _ => _ end) = _ => destruct body as [[[]|e|code] w1]
  end; try reflexivity.
  exfalso. now apply (Hx code).
Qed.

(** X16: the export of the branches cannot fail the run and does not touch
    last_commit.txt: whatever the commands answer (a removal, an archive or
    a rev-parse that fails is caught per branch), copying every branch
    returns normally with the persisted listing as it was. *)
Theorem export_never_fails (branches : list string) (w : world) :
  fst (AllBranches.copy_each env toISOString JSON_stringify branches w) = Normal tt
  /\ JsObject.own
       (disk (snd (AllBranches.copy_each env toISOString JSON_stringify branches w)))
       LAST_COMMIT_FILE
     = JsObject.own (disk w) LAST_COMMIT_FILE.
Proof.
  revert w. induction branches as [|b rest IH]; intros w.
  - split; reflexivity.
  - cbn [AllBranches.copy_each]. unfold bind.
    pose proof (copyBranchFiles_returns b w) as Hret.
    destruct (keeps_copyBranchFiles b w) as [_ Hd].
    destruct (AllBranches.copyBranchFiles env toISOString JSON_stringify b w)
      as [c w1].
    cbn [fst snd] in *. subst c.
    destruct (IH w1) as [Hr Hd1]. split; [exact Hr | now rewrite Hd1].
Qed.

Lemma keeps_copy_each (branches : list string) :
  keeps_listing (AllBranches.copy_each env toISOString JSON_stringify branches).
Proof.
  induction branches as [|b rest IH]; cbn [AllBranches.copy_each].
  - apply keeps_ret.
  - apply keeps_bind; [apply keeps_copyBranchFiles | intros _; exact IH].
Qed.

Lemma keeps_createBranchesIndex (branches : list string) :
  keeps_listing (AllBranches.createBranchesIndex env toISOString branches).
Proof.
  unfold AllBranches.createBranchesIndex.
  apply keeps_bind; [apply keeps_new_Date|]. intros stamp.
  apply keeps_writeFileSync. reflexivity.
Qed.

(** The last two steps: a write that is refused has changed nothing, and
    after the write nothing throws. *)
Lemma persist_and_notify (data text : string) :
  fails_before_persisting
    (bind (writeLastCommits env data) (fun _ => sendTelegramMessage cfg env text)).
Proof.
  intros w. unfold bind, writeLastCommits.
  destruct (writeFileSync env LAST_COMMIT_FILE data w) as [c w1] eqn:E.
  destruct (writeFileSync_cases _ _ _ _ _ _ E) as [[-> ->]|[e [-> [-> _]]]];
    cbn [fst snd].
  - rewrite sendTelegramMessage_returns. split; discriminate.
  - split; [discriminate | reflexivity].
Qed.

Lemma variant_try_fails_before_persisting :
  fails_before_persisting
    (latest <- getLatestCommits cfg env ;;
     last <- readLastCommits env ;;
     if negb (String.eqb latest last)
     then
       AllBranches.syncRepo cfg env ;;;
       branches <- AllBranches.getAllBranches cfg env ;;
       present <- existsSync env "branches" ;;
       (if (present : bool)
        then execSync env "rm -rf branches" ;;; ret tt
        else ret tt) ;;;
       AllBranches.copy_each env toISOString JSON_stringify branches ;;;
       AllBranches.createBranchesIndex env toISOString branches ;;;
       writeLastCommits env latest ;;;
       sendTelegramMessage cfg env
         ("✅ edgetunnel 仓库有更新，已同步 "
          +++ decimal_of_Z (Z.of_nat (List.length branches))
          +++ " 个分支。" +++ nl +++ nl +++ "分支列表:" +++ nl
          +++ String.concat nl (map (fun b => "• " +++ b) branches))
     else ret tt)%js.
Proof.
  apply fails_bind; [apply careful_keeps, careful_getLatestCommits|]. intros latest.
  apply fails_bind; [apply silent_keeps, silent_readLastCommits|]. intros last.
  destruct (negb (String.eqb latest last)); [|apply keeps_fails, keeps_ret].
  apply fails_bind; [apply keeps_variant_syncRepo|]. intros _.
  apply fails_bind; [apply keeps_getAllBranches|]. intros branches.
  apply fails_bind; [apply keeps_existsSync|]. intros present.
  apply fails_bind.
  { destruct present; [|apply keeps_ret].
    apply keeps_bind; [apply keeps_execSync|]. intros _. apply keeps_ret. }
  intros _.
  apply fails_bind; [apply keeps_copy_each|]. intros _.
  apply fails_bind; [apply keeps_createBranchesIndex|]. intros _.
  apply persist_and_notify.
Qed.

(** X17: a run of the earlier variant ends normally or with exit status 1,
    and when it exits with 1 last_commit.txt is as it was at the start:
    the listing is persisted after the clone, the branch listing and the
    export, and nothing after it can throw. *)
Theorem variant_failure_keeps_listing (files : list (string * string))
    (c : completion unit) (w' : world) :
  AllBranches.main cfg env toISOString JSON_stringify (start files) = (c, w') ->
  (c = Normal tt \/ c = Exit 1%Z)
  /\ (c = Exit 1%Z ->
      JsObject.own (disk w') LAST_COMMIT_FILE = JsObject.own files LAST_COMMIT_FILE).
Proof.
  unfold AllBranches.main, try_catch.
  destruct (variant_try_fails_before_persisting (start files)) as [Hx Hd].
  match goal with
  | |- (match ?body with _ => _ end) = _ -> _ =>
      destruct body as [[[]|e|code] w1] eqn:E
  end; cbn [fst snd] in *.
  - intros [= <- <-]. split; [now left | discriminate].
  - unfold bind, process_exit.
    pose proof (sendTelegramMessage_returns cfg env (failure_text e) w1) as Hret.
    destruct (silent_sendTelegramMessage cfg env (failure_text e) w1)
      as [sent [_ [Hds _]]].
    destruct (sendTelegramMessage cfg env (failure_text e) w1) as [c2 w2].
    cbn [fst snd] in *. subst c2.
    intros [= <- <-]. split; [now right|].
    intros _. rewrite Hds. now apply (Hd e).
  - exfalso. now apply (Hx code).
Qed.

End Variant.

Lemma variant_failure_keeps_listing_witness :
  let files := [(LAST_COMMIT_FILE, listing [("aaa1111", "refs/heads/main")])] in
  let run := AllBranches.main bot_config only_listing_works
               (fun _ => "") (fun _ => "") (start files) in
  fst run = Exit 1%Z
  /\ JsObject.own (disk (snd run)) LAST_COMMIT_FILE
     = Some (listing [("aaa1111", "refs/heads/main")]).
Proof.
  intros files run.
  destruct (variant_failure_keeps_listing bot_config only_listing_works
              (fun _ => "") (fun _ => "") files (fst run) (snd run)
              (surjective_pairing run)) as [_ H].
  split; [reflexivity|]. apply H. reflexivity.
Defined.

(** ** When the listing is persisted *)

Lemma no_write_nil : no_write [].
Proof. intros path data []. Qed.

Lemma no_write_app (a b : list event) : no_write a -> no_write b -> no_write (a ++ b).
Proof.
  intros Ha Hb path data Hin. apply in_app_or in Hin.
  destruct Hin as [Hin|Hin]; [eapply Ha | eapply Hb]; eauto.
Qed.

Lemma no_write_exec (command : string) (answer : exec_outcome) :
  no_write [ExecSync command answer].
Proof. intros path data [H|[]]. discriminate. Qed.

Lemma no_write_lookups (cfg : config) (env : environment) (l : list ChangeRecord) :
  forall n, no_write (lookups cfg env n l).
Proof.
  intros n path data Hin. destruct (lookups_In _ _ _ _ _ Hin) as [c [m [_ E]]].
  discriminate.
Qed.

Lemma sendTelegramMessage_adds (cfg : config) (env : environment)
    (text : string) (w : world) :
  exists sent, snd (sendTelegramMessage cfg env text w) = after w sent /\ no_write sent.
Proof.
  unfold sendTelegramMessage.
  destruct (negb _ || negb _).
  - exists []. split; [now rewrite after_nil | apply no_write_nil].
  - fold (sendMessage_url cfg).
    unfold try_catch, bind, clock, emit, throw, ret. cbv beta zeta.
    exists [posted cfg env (trace w) text]. split.
    + unfold posted.
      destruct (telegram_api env _ _) as [e|status body]; [reflexivity|].
      destruct (negb (ok status)); reflexivity.
    + intros path data [H|[]]. discriminate.
Qed.

Lemma getRepoLastUpdateTime_adds (cfg : config) (env : environment) (w : world) :
  exists t answer,
    getRepoLastUpdateTime cfg env w
    = (Normal t, after w [Fetch repo_url (api_headers cfg) answer]).
Proof.
  unfold getRepoLastUpdateTime, try_catch, fetch_date, bind, clock, emit, throw, ret,
    after. fold repo_url. cbv beta zeta.
  destruct (github_api env (List.length (trace w)) repo_url) as [e|status body];
    [do 2 eexists; reflexivity|].
  destruct (negb (ok status)); [do 2 eexists; reflexivity|].
  destruct body; do 2 eexists; reflexivity.
Qed.

Lemma no_write_fetch (u : string) (h : list (string * string))
    (answer : fetch_outcome date_body) :
  no_write [Fetch u h answer].
Proof. intros path data [H|[]]. discriminate. Qed.

(** The trace of the [try] block of main, however it ends: no file
    written, or one write, of the fetched listing to last_commit.txt, right
    after the clone that succeeded. *)
Lemma main_try_trace (cfg : config) (env : environment)
    (toLocaleString : Date -> string) (files : list (string * string))
    (c : completion unit) (w' : world) :
  main_try cfg env toLocaleString (start files) = (c, w') ->
  no_write (trace w')
  \/ exists output pre o post,
       execSync_outcome env 0 (listing_command cfg) = Stdout output
       /\ trace w' = pre ++ ExecSync (clone_command cfg) (Stdout o)
                         :: WriteFileSync LAST_COMMIT_FILE (JsString.trim output)
                         :: post
       /\ no_write pre /\ no_write post.
Proof.
  unfold main_try, bind at 1. rewrite getLatestCommits_run. cbv zeta.
  change (List.length (trace (start files))) with 0.
  destruct (execSync_outcome env 0 (listing_command cfg)) as [output|e] eqn:Els.
  2: { intros [= <- <-]. left. apply no_write_exec. }
  set (w1 := after (start files) [ExecSync (listing_command cfg) (Stdout output)]).
  assert (Hw1 : no_write (trace w1)) by apply no_write_exec.
  unfold bind at 1.
  destruct (readLastCommits_world env w1) as [Hw _].
  destruct (readLastCommits env w1) as [[lastText|e|code] w1'] eqn:Elast;
    cbn [snd] in Hw; subst w1'.
  2, 3: intros [= <- <-]; now left.
  destruct (negb (String.eqb (JsString.trim output) lastText)).
  2: { intros [= <- <-]. now left. }
  unfold bind at 1.
  assert (Hold : exists c, (if JsString.truthy lastText
                            then lift (parseCommitsData lastText)
                            else ret JsObject.empty) w1 = (c, w1)).
  { destruct (JsString.truthy lastText); eexists; reflexivity. }
  destruct Hold as [cold ->].
  destruct cold as [oldCommits|e|code].
  2, 3: intros [= <- <-]; now left.
  unfold bind at 1, lift at 1.
  destruct (parseCommitsData (JsString.trim output)) as [newCommits|e|code].
  2, 3: intros [= <- <-]; now left.
  unfold bind at 1. rewrite getChangedBranches_run.
  set (l := Array_sort byCommitTime _).
  set (w2 := after w1 _).
  assert (Hw2 : no_write (trace w2)).
  { apply no_write_app; [exact Hw1 | apply no_write_lookups]. }
  unfold bind at 1.
  destruct (getRepoLastUpdateTime_adds cfg env w2) as [t [answer ->]].
  set (w3 := after w2 _).
  assert (Hw3 : no_write (trace w3)).
  { apply no_write_app; [exact Hw2 | apply no_write_fetch]. }
  unfold bind at 1. rewrite syncRepo_run. cbv zeta.
  assert (Hclone : forall pre clone w4,
             no_write pre ->
             trace w4 = pre ++ [ExecSync (clone_command cfg) clone] ->
             (let (c0, w5) := (completion_of clone, w4) in
              match c0 with
              | Normal a =>
                  (writeLastCommits env (JsString.trim output);;;
                   message <- lift (render toLocaleString l);;
                   sendTelegramMessage cfg env message) w5
              | Throw e => (Throw e, w5)
              | Exit c1 => (Exit c1, w5)
              end) = (c, w') ->
             no_write (trace w')
             \/ exists output0 pre0 o post,
                  Stdout output = Stdout output0
                  /\ trace w' = pre0 ++ ExecSync (clone_command cfg) (Stdout o)
                                    :: WriteFileSync LAST_COMMIT_FILE
                                         (JsString.trim output0)
                                    :: post
                  /\ no_write pre0 /\ no_write post).
  { intros pre clone w4 Hpre Ht4.
    destruct clone as [o|e]; cbn [completion_of].
    2: { intros [= <- <-]. left. rewrite Ht4.
         apply no_write_app; [exact Hpre | apply no_write_exec]. }
    unfold bind at 1, writeLastCommits.
    destruct (writeFileSync env LAST_COMMIT_FILE (JsString.trim output) w4)
      as [cw w5] eqn:Ew.
    destruct (writeFileSync_cases _ _ _ _ _ _ Ew) as [[-> ->]|[e [-> [-> _]]]].
    2: { intros [= <- <-]. left. rewrite Ht4.
         apply no_write_app; [exact Hpre | apply no_write_exec]. }
    unfold bind at 1, lift at 1.
    destruct (render toLocaleString l) as [text|e|code].
    - destruct (sendTelegramMessage_adds cfg env text
                  {| disk := write LAST_COMMIT_FILE (JsString.trim output) (disk w4);
                     trace := trace w4 ++
                              [WriteFileSync LAST_COMMIT_FILE (JsString.trim output)] |})
        as [sent [Hs Hsent]].
      intros H. right. exists output, pre, o, sent.
      split; [reflexivity|]. split; [|now split].
      rewrite H in Hs. cbn [snd] in Hs. rewrite Hs. cbn [after trace].
      rewrite Ht4, <- !app_assoc. reflexivity.
    - intros [= <- <-]. right. exists output, pre, o, [].
      split; [reflexivity|]. split; [|split; [exact Hpre | apply no_write_nil]].
      cbn [trace]. rewrite Ht4, <- app_assoc. reflexivity.
    - intros [= <- <-]. right. exists output, pre, o, [].
      split; [reflexivity|]. split; [|split; [exact Hpre | apply no_write_nil]].
      cbn [trace]. rewrite Ht4, <- app_assoc. reflexivity. }
  destruct (exists_now env w3 LOCAL_REPO).
  - destruct (execSync_outcome env (List.length (trace w3)) remove_command) as [o|e].
    + apply (Hclone (trace w3 ++ [ExecSync remove_command (Stdout o)])).
      * apply no_write_app; [exact Hw3 | apply no_write_exec].
      * cbn [after trace]. rewrite <- app_assoc. reflexivity.
    + intros [= <- <-]. left. cbn [after trace].
      apply no_write_app; [exact Hw3 | apply no_write_exec].
  - apply (Hclone (trace w3)); [exact Hw3 | reflexivity].
Qed.

(** X18: in every run of [sync.js], however it ends, a file is written only
    as the step right after a clone that succeeded, and then it is
    last_commit.txt receiving the trimmed listing the run fetched.  So the
    persisted listing never moves ahead of the mirror. *)
Theorem persist_only_after_mirror (cfg : config) (env : environment)
    (toLocaleString : Date -> string) (files : list (string * string))
    (c : completion unit) (w' : world) :
  main cfg env toLocaleString (start files) = (c, w') ->
  forall path data,
    In (WriteFileSync path data) (trace w') ->
    exists output pre o post,
      execSync_outcome env 0 (listing_command cfg) = Stdout output
      /\ path = LAST_COMMIT_FILE
      /\ data = JsString.trim output
      /\ trace w' = pre ++ ExecSync (clone_command cfg) (Stdout o)
                        :: WriteFileSync path data :: post.
Proof.
  unfold main, try_catch.
  destruct (main_try cfg env toLocaleString (start files)) as [c0 w1] eqn:Etry.
  pose proof (main_try_trace _ _ _ _ _ _ Etry) as Htrace.
  assert (Hgen : forall sent, trace w' = trace w1 ++ sent -> no_write sent ->
                 forall path data,
                   In (WriteFileSync path data) (trace w') ->
                   exists output pre o post,
                     execSync_outcome env 0 (listing_command cfg) = Stdout output
                     /\ path = LAST_COMMIT_FILE
                     /\ data = JsString.trim output
                     /\ trace w' = pre ++ ExecSync (clone_command cfg) (Stdout o)
                                       :: WriteFileSync path data :: post).
  { intros sent Ht Hsent path data Hin. rewrite Ht in Hin.
    apply in_app_or in Hin. destruct Hin as [Hin|Hin];
      [|exfalso; now apply (Hsent path data)].
    destruct Htrace as [Hno|[output [pre [o [post [Hls [Ht1 [Hpre Hpost]]]]]]]].
    - exfalso. now apply (Hno path data).
    - rewrite Ht1 in Hin. apply in_app_or in Hin. destruct Hin as [Hin|Hin].
      + exfalso. now apply (Hpre path data).
      + destruct Hin as [Hin|[Hin|Hin]]; [discriminate| |].
        * injection Hin as <- <-. exists output, pre, o, (post ++ sent).
          repeat split; [exact Hls|].
          rewrite Ht, Ht1, <- app_assoc. reflexivity.
        * exfalso. now apply (Hpost path data). }
  destruct c0 as [[]|e|code].
  - intros [= <- <-]. apply (Hgen []); [now rewrite app_nil_r | apply no_write_nil].
  - unfold bind, process_exit.
    destruct (sendTelegramMessage_adds cfg env (failure_text e) w1) as [sent [Hs Hsent]].
    pose proof (sendTelegramMessage_returns cfg env (failure_text e) w1) as Hret.
    destruct (sendTelegramMessage cfg env (failure_text e) w1) as [c2 w2].
    cbn [fst snd] in *. subst c2 w2.
    intros [= <- <-]. apply (Hgen sent); [reflexivity | exact Hsent].
  - intros [= <- <-]. apply (Hgen []); [now rewrite app_nil_r | apply no_write_nil].
Qed.

Lemma persist_only_after_mirror_witness :
  let run := main bot_config same_listing_env (fun _ => "") (start []) in
  exists output pre o post,
    execSync_outcome same_listing_env 0 (listing_command bot_config) = Stdout output
    /\ LAST_COMMIT_FILE = LAST_COMMIT_FILE
    /\ listing [("aaa1111", "refs/heads/main")] = JsString.trim output
    /\ trace (snd run)
       = pre ++ ExecSync (clone_command bot_config) (Stdout o)
             :: WriteFileSync LAST_COMMIT_FILE (listing [("aaa1111", "refs/heads/main")])
             :: post.
Proof.
  intros run.
  apply (persist_only_after_mirror bot_config same_listing_env (fun _ => "") []
           (fst run) (snd run) (surjective_pairing run)).
  vm_compute. do 5 right. left. reflexivity.
Defined.

(** ** A persisted listing that does not parse *)

Lemma nonblank_line_truthy (text line : string) :
  In line (JsString.split JsString.lf text) -> nonblank line = true ->
  JsString.truthy text = true.
Proof.
  destruct text; [|reflexivity].
  simpl. intros [<-|[]] H. discriminate.
Qed.

(** X19: when last_commit.txt holds a non-blank line without a tab and the
    fetched listing differs from it, the run of [sync.js] throws while
    parsing the persisted text: it looks nothing up and clones nothing,
    notifies the TypeError and exits with 1, and the files are as they
    were, the unparsable last_commit.txt included. *)
Theorem unparsable_persisted_listing (cfg : config) (env : environment)
    (toLocaleString : Date -> string) (files : list (string * string))
    (output data line : string) :
  execSync_outcome env 0 (listing_command cfg) = Stdout output ->
  JsObject.own files LAST_COMMIT_FILE = Some data ->
  JsString.trim output <> JsString.trim data ->
  In line (JsString.split JsString.lf (JsString.trim data)) ->
  nonblank line = true ->
  contains JsString.tab line = false ->
  let w1 := {| disk := files;
               trace := [ExecSync (listing_command cfg) (Stdout output)] |} in
  let w' := snd (sendTelegramMessage cfg env
                   (failure_text (TypeError_undefined "replace")) w1) in
  main cfg env toLocaleString (start files) = (Exit 1%Z, w')
  /\ disk w' = files
  /\ (forall command answer,
        In (ExecSync command answer) (trace w') -> command = listing_command cfg)
  /\ (forall u h answer, ~ In (Fetch u h answer) (trace w')).
Proof.
  intros Hls Hfile Hdiff Hin Hnb Htab w1 w'.
  assert (Hlast : readLastCommits env w1 = (Normal (JsString.trim data), w1))
    by now apply readLastCommits_file.
  assert (Hparse : parseCommitsData (JsString.trim data)
                   = Throw (TypeError_undefined "replace")).
  { unfold parseCommitsData. apply forEach_lines_throws. apply Exists_exists.
    exists line. split; [|exact Htab]. apply filter_In. now split. }
  assert (Hmain : main cfg env toLocaleString (start files) = (Exit 1%Z, w')).
  { unfold main, main_try, try_catch, bind at 1 2 3.
    rewrite getLatestCommits_run. unfold start, after; cbn [trace disk List.length app].
    rewrite Hls. fold w1. rewrite Hlast.
    apply String.eqb_neq in Hdiff. rewrite Hdiff. cbn [negb].
    rewrite (nonblank_line_truthy _ _ Hin Hnb).
    unfold lift at 1. rewrite Hparse.
    unfold bind, process_exit. subst w'.
    pose proof (sendTelegramMessage_returns cfg env
                  (failure_text (TypeError_undefined "replace")) w1) as Hret.
    destruct (sendTelegramMessage cfg env _ w1) as [c2 w2]. cbn [fst snd] in *.
    now subst c2. }
  split; [exact Hmain|].
  destruct (silent_sendTelegramMessage cfg env
              (failure_text (TypeError_undefined "replace")) w1)
    as [sent [Hts [Hds [_ Hns]]]].
  destruct (sendTelegramMessage_adds cfg env
              (failure_text (TypeError_undefined "replace")) w1)
    as [sent' [Hs' _]].
  fold w' in Hts, Hds, Hs'. split; [exact Hds|]. split.
  - intros command answer H. rewrite Hts in H. cbn [trace w1] in H.
    destruct H as [H|H]; [now injection H as <- _|].
    exfalso. now apply (Hns command answer).
  - intros u h answer H.
    unfold sendTelegramMessage in w'. subst w'.
    destruct (negb _ || negb _) in H.
    + cbn in H. destruct H as [H|[]]. discriminate.
    + unfold try_catch, bind, clock, emit, throw, ret in H. cbv beta zeta in H.
      destruct (telegram_api env _ _) as [e|status body] in H.
      * cbn in H. destruct H as [H|[H|[]]]; discriminate.
      * destruct (negb (ok status)) in H; cbn in H;
          destruct H as [H|[H|[]]]; discriminate.
Qed.

Lemma unparsable_persisted_listing_witness :
  let files := [(LAST_COMMIT_FILE, "aaa1111 refs/heads/main")] in
  let w1 := {| disk := files;
               trace := [ExecSync (listing_command bot_config)
                           (Stdout (listing [("bbb2222", "refs/heads/main")]))] |} in
  let w' := snd (sendTelegramMessage bot_config moved_listing_env
                   (failure_text (TypeError_undefined "replace")) w1) in
  main bot_config moved_listing_env (fun _ => "") (start files) = (Exit 1%Z, w')
  /\ disk w' = files
  /\ (forall command answer,
        In (ExecSync command answer) (trace w') ->
        command = listing_command bot_config)
  /\ (forall u h answer, ~ In (Fetch u h answer) (trace w')).
Proof.
  apply (unparsable_persisted_listing bot_config moved_listing_env (fun _ => "")
           [(LAST_COMMIT_FILE, "aaa1111 refs/heads/main")]
           (listing [("bbb2222", "refs/heads/main")])
           "aaa1111 refs/heads/main" "aaa1111 refs/heads/main").
  - reflexivity.
  - reflexivity.
  - vm_compute. discriminate.
  - vm_compute. left. reflexivity.
  - reflexivity.
  - reflexivity.
Defined.
